(** * UnoWiFi_DSC: digital setting circles on the Uno+WiFi board

    A shallow embedding of [UnoWiFi_DSC.ino].  The ESP8266 half (the part
    under [#if defined(ESP8266)]) is modelled in full: the serial line
    parser [readFromSerial], the run loop [loop], the TCP server
    [attendTcpRequests] and the WiFi bootstrap [setup].  Of the Arduino Uno
    half only the line it sends matters here ([Uno.loop]).  The properties
    of the position synchronisation and query serving layer follow the
    definitions.

    C [int] and [long] are both 32 bits wide on the ESP8266; they are
    modelled as [Z].  A byte is a [Z] in [0, 255], and [Serial.read()]
    yields [-1] when the receive queue is empty. *)

From Stdlib Require Import ZArith Lia.
From Stdlib Require Import String.
From stdpp Require Import base tactics option list.

Local Open Scope Z_scope.

(** ** Configuration ([#define]s of the sketch) *)

Definition AZIMUTH_TOTAL_STEPS : Z := 10200.
Definition ALTITUDE_TOTAL_STEPS : Z := 10200.
Definition MAX_SRV_CLIENTS : nat := 3.
Definition BUFFER_SIZE : Z := 80.

(** Limits of the 32-bit [long] of the ESP8266 tool chain. *)
Definition LONG_MAX : Z := 2147483647.
Definition LONG_MIN : Z := -2147483648.

(** ASCII codes used by the sketch. *)
Definition NUL : Z := 0.
Definition TAB : Z := 9.
Definition LF : Z := 10.
Definition CR : Z := 13.

(** ** The serial line parser *)

(** [char buf[BUFFER_SIZE]] together with the [static int pos] of
    [readFromSerial]. *)
Record line_state := LineState { buf : list Z; pos : Z }.

(** Globals are zero-initialised at process start. *)
Definition line_init : line_state :=
  {| buf := replicate (Z.to_nat BUFFER_SIZE) 0; pos := 0 |}.

(** Conversion of an [int] to the 8-bit [char] stored in the buffer. *)
Definition to_char (c : Z) : Z := c mod 256.

(** [int readFromSerial(char *buffer)], with the result of
    [Serial.read()] passed in as [character].  Returns the function's
    result and the state it leaves behind.  [pos] is only incremented
    below [BUFFER_SIZE - 1], so the 32-bit [int] cannot wrap. *)
Definition readFromSerial (st : line_state) (character : Z) : Z * line_state :=
  if 0 <? character then
    if character =? CR then (0, st)
    else if character =? LF then
      (pos st, {| buf := buf st; pos := 0 |})
    else if pos st <? BUFFER_SIZE - 1 then
      let b1 := <[Z.to_nat (pos st) := to_char character]> (buf st) in
      let b2 := <[Z.to_nat (pos st + 1) := 0]> b1 in
      (0, {| buf := b2; pos := pos st + 1 |})
    else (0, st)
  else (0, st).

(** [Serial.read()]: the oldest byte of the receive queue, or [-1]. *)
Definition Serial_read (q : list Z) : Z * list Z :=
  match q with
  | [] => (-1, [])
  | b :: q' => (b, q')
  end.

(** The parser driven by a sequence of [Serial.read()] results. *)
Definition feed (st : line_state) (cs : list Z) : line_state :=
  foldl (fun s c => snd (readFromSerial s c)) st cs.

(** ** [atol] of the C library

    [atol(s)] is [strtol(s, NULL, 10)]: white space is skipped, an optional
    sign is read, then the longest run of decimal digits; the result is 0
    when there is no digit, and is clamped to the range of [long].  The
    scan stops at the first byte that is not a digit, the terminating NUL
    included. *)

Definition isspace (c : Z) : bool := (c =? 32) || ((9 <=? c) && (c <=? 13)).
Definition isdigit (c : Z) : bool := (48 <=? c) && (c <=? 57).

Fixpoint skip_space (s : list Z) : list Z :=
  match s with
  | c :: s' => if isspace c then skip_space s' else s
  | [] => []
  end.

Fixpoint digits_value (acc : Z) (s : list Z) : Z :=
  match s with
  | c :: s' => if isdigit c then digits_value (acc * 10 + (c - 48)) s' else acc
  | [] => acc
  end.

Definition atol (s : list Z) : Z :=
  match skip_space s with
  | c :: s' =>
      if c =? 45 then Z.max LONG_MIN (- digits_value 0 s')
      else if c =? 43 then Z.min LONG_MAX (digits_value 0 s')
      else Z.min LONG_MAX (digits_value 0 (c :: s'))
  | [] => 0
  end.

(** ** Formatting: [sprintf], [snprintf] and [println] *)

(** Bytes of a string literal. *)
Fixpoint bytes (s : string) : list Z :=
  match s with
  | EmptyString => []
  | String a s' => Z.of_N (Ascii.N_of_ascii a) :: bytes s'
  end.

(** Decimal digits of a non-negative number, most significant first.  The
    fuel is an upper bound on the number of digits. *)
Fixpoint dec_digits (fuel : nat) (n : Z) (acc : list Z) : list Z :=
  match fuel with
  | O => acc
  | S f =>
      let acc' := (48 + n mod 10) :: acc in
      if n <? 10 then acc' else dec_digits f (n / 10) acc'
  end.

(** Conversion [%u]. *)
Definition fmt_unsigned (n : Z) : list Z :=
  dec_digits (S (Z.to_nat (Z.log2 n))) n [].

(** Conversion [%i] (of an [int] or a [long]: both 32 bits wide here). *)
Definition fmt_long (z : Z) : list Z :=
  if z <? 0 then 45 :: fmt_unsigned (- z) else fmt_unsigned z.

(** [sprintf(response, "%i\t%i\t\n", Azimuth_pos, Altitude_pos)]: the
    string left in [response]; [sprintf] returns its length. *)
Definition Q_response (az alt : Z) : list Z :=
  fmt_long az ++ [TAB] ++ fmt_long alt ++ [TAB; LF].

(** [snprintf(response, 20, "%u-%u", ...)]: at most 19 characters. *)
Definition H_response : list Z :=
  take 19 (fmt_unsigned AZIMUTH_TOTAL_STEPS ++ [45] ++ fmt_unsigned ALTITUDE_TOTAL_STEPS).

(** [Print::println(const char* )] sends the string, then CR LF. *)
Definition println (s : list Z) : list Z := s ++ [CR; LF].

(** The literal written first by the [G] branch. *)
Definition http_header : list Z :=
  bytes "HTTP/1.1 200 OK" ++ [CR; LF] ++
  bytes "Content-type: text/plain" ++ [CR; LF] ++
  bytes "Content-length:".

(** ** The Arduino Uno half

    Its [loop] waits 100 ms, then sends the count of the azimuth encoder
    with [Serial.println(long)]: the signed decimal digits, then CR LF. *)

Module Uno.

Definition loop (AzimuthEncoder : Z) : list Z := println (fmt_long AzimuthEncoder).

End Uno.

(** ** The TCP side: [WiFiServer server] and [WiFiClient serverClients[]]

    The ESP8266WiFi library is not part of the sketch.  Its objects are
    modelled by what the sketch can observe of them: a connection has a
    peer that may have closed it, bytes received and not yet read, and the
    bytes the sketch has written to it.  A [WiFiClient] is either empty or
    a handle to one connection, named by its index in [conns]. *)

Record conn := Conn {
  established : bool;   (* the peer has not closed, nor has the server *)
  rx : list Z;          (* received, not yet read *)
  tx : list Z;          (* written by the sketch, oldest first *)
  stopped : bool        (* closed by [WiFiClient::stop()] *)
}.

Definition fresh_conn : conn :=
  {| established := true; rx := []; tx := []; stopped := false |}.

Record tcp_state := Tcp {
  serverClients : list (option nat);   (* WiFiClient serverClients[MAX_SRV_CLIENTS] *)
  conns : list conn;                   (* every connection the stack accepted *)
  unclaimed : list nat                 (* the server's queue of pending connections *)
}.

Definition tcp_init : tcp_state :=
  {| serverClients := replicate MAX_SRV_CLIENTS None; conns := []; unclaimed := [] |}.

Definition set_clients (l : list (option nat)) (t : tcp_state) : tcp_state :=
  {| serverClients := l; conns := conns t; unclaimed := unclaimed t |}.
Definition set_conns (l : list conn) (t : tcp_state) : tcp_state :=
  {| serverClients := serverClients t; conns := l; unclaimed := unclaimed t |}.
Definition set_unclaimed (l : list nat) (t : tcp_state) : tcp_state :=
  {| serverClients := serverClients t; conns := conns t; unclaimed := l |}.

(** [serverClients[i]]. *)
Definition slot (t : tcp_state) (i : nat) : option nat :=
  default None (serverClients t !! i).

(** [WiFiClient::operator bool()]: the handle is not empty. *)
Definition client_bool (h : option nat) : bool :=
  match h with Some _ => true | None => false end.

(** [WiFiClient::available()]. *)
Definition client_available (t : tcp_state) (h : option nat) : Z :=
  match h ≫= (fun c => conns t !! c) with
  | Some k => Z.of_nat (length (rx k))
  | None => 0
  end.

(** [WiFiClient::connected()]: established, or data still to be read. *)
Definition client_connected (t : tcp_state) (h : option nat) : bool :=
  match h ≫= (fun c => conns t !! c) with
  | Some k => established k || (0 <? client_available t h)
  | None => false
  end.

Definition close_conn (k : conn) : conn :=
  {| established := false; rx := []; tx := tx k; stopped := true |}.

(** The effect of [WiFiClient::stop()] on the connection behind a handle. *)
Definition client_stop (h : option nat) (t : tcp_state) : tcp_state :=
  match h with
  | Some c => set_conns (alter close_conn c (conns t)) t
  | None => t
  end.

(** [WiFiClient::write]: the bytes are handed to the connection. *)
Definition client_write (c : nat) (bs : list Z) (t : tcp_state) : tcp_state :=
  set_conns (alter (fun k => {| established := established k; rx := rx k;
                                tx := tx k ++ bs; stopped := stopped k |}) c (conns t)) t.

(** [WiFiClient::read()]: the oldest unread byte, or [-1]. *)
Definition client_read (c : nat) (t : tcp_state) : Z * tcp_state :=
  match conns t !! c with
  | Some k =>
      match rx k with
      | b :: r =>
          (b, set_conns (<[c := {| established := established k; rx := r;
                                   tx := tx k; stopped := stopped k |}]> (conns t)) t)
      | [] => (-1, t)
      end
  | None => (-1, t)
  end.

(** [while (serverClients[i].available()) character = serverClients[i].read();] *)
Definition client_drain (c : nat) (t : tcp_state) : tcp_state :=
  set_conns (alter (fun k => {| established := established k; rx := [];
                                tx := tx k; stopped := stopped k |}) c (conns t)) t.

(** [WiFiServer::hasClient()] and [WiFiServer::available()]. *)
Definition server_hasClient (t : tcp_state) : bool :=
  match unclaimed t with [] => false | _ :: _ => true end.

Definition server_available (t : tcp_state) : option nat * tcp_state :=
  match unclaimed t with
  | [] => (None, t)
  | c :: q => (Some c, set_unclaimed q t)
  end.

(** The test of line 145: a free or disconnected spot. *)
Definition spot_free (t : tcp_state) (i : nat) : bool :=
  negb (client_bool (slot t i)) || negb (client_connected t (slot t i)).

(** The [for] loop of lines 143-153, from index [i] with [n] iterations
    left; returns the value of [i] on exit. *)
Fixpoint accept_scan (n : nat) (i : nat) (t : tcp_state) : nat * tcp_state :=
  match n with
  | O => (i, t)
  | S n' =>
      if spot_free t i then
        let t1 := if client_bool (slot t i) then client_stop (slot t i) t else t in
        let '(h, t2) := server_available t1 in
        (i, set_clients (<[i := h]> (serverClients t2)) t2)
      else accept_scan n' (S i) t
  end.

(** Lines 142-159. *)
Definition accept_new_client (t : tcp_state) : tcp_state :=
  if server_hasClient t then
    let '(i, t1) := accept_scan MAX_SRV_CLIENTS 0 t in
    if Nat.eqb i MAX_SRV_CLIENTS then
      let '(serverClient, t2) := server_available t1 in
      client_stop serverClient t2
    else t1
  else t.

(** The [switch] of lines 170-193 for the client in spot [i], handle [c]. *)
Definition serve_command (az alt : Z) (i c : nat) (character : Z) (t : tcp_state) : tcp_state :=
  if character =? 81 then
    client_write c (println (Q_response az alt)) t
  else if character =? 72 then
    client_write c (println H_response) t
  else if character =? 71 then
    let response := Q_response az alt in
    let contentSize := Z.of_nat (length response) in
    let t1 := client_write c http_header t in
    let t2 := client_write c [contentSize mod 256] t1 in
    let t3 := client_write c [CR; LF; CR; LF] t2 in
    let t4 := client_write c (println response) t3 in
    let t5 := client_drain c t4 in
    set_clients (<[i := None]> (serverClients t5)) (client_stop (Some c) t5)
  else t.

(** The body of the [for] loop of lines 162-196. *)
Definition serve_client (az alt : Z) (i : nat) (t : tcp_state) : tcp_state :=
  match slot t i with
  | Some c =>
      if client_connected t (Some c) then
        if 0 <? client_available t (Some c) then
          let '(character, t1) := client_read c t in
          serve_command az alt i c (to_char character) t1
        else t
      else t
  | None => t
  end.

Fixpoint serve_scan (az alt : Z) (n : nat) (i : nat) (t : tcp_state) : tcp_state :=
  match n with
  | O => t
  | S n' => serve_scan az alt n' (S i) (serve_client az alt i t)
  end.

(** [void attendTcpRequests()]; the two position globals it reads are
    passed in. *)
Definition attendTcpRequests (az alt : Z) (t : tcp_state) : tcp_state :=
  serve_scan az alt MAX_SRV_CLIENTS 0 (accept_new_client t).

(** ** The WiFi bootstrap: [setup]

    [setup] only issues calls on the board and on the WiFi library; it is
    modelled by the sequence of calls it makes.  What the library answers
    is given by the environment. *)

Inductive wl_status :=
  | WL_IDLE_STATUS | WL_NO_SSID_AVAIL | WL_SCAN_COMPLETED | WL_CONNECTED
  | WL_CONNECT_FAILED | WL_CONNECTION_LOST | WL_DISCONNECTED | WL_NO_SHIELD.

Inductive wifi_mode := WIFI_STA | WIFI_AP.

Record IPAddress := IP { octet1 : Z; octet2 : Z; octet3 : Z; octet4 : Z }.

Record wifi_env := WifiEnv {
  status_after_begin : wl_status;   (* [WiFi.status()] after the 5 s delay *)
  localIP : IPAddress;              (* [WiFi.localIP()], assigned by the network *)
  softAPIP : IPAddress              (* [WiFi.softAPIP()] *)
}.

Inductive call :=
  | Serial_begin (baud : Z)
  | delay (ms : Z)
  | WiFi_mode (m : wifi_mode)
  | WiFi_begin (ssid passphrase : string)
  | WiFi_softAPConfig (ip gateway subnet : IPAddress)
  | WiFi_softAP (ssid passphrase : string)
  | Serial_println (s : string)
  | Serial_println_ip (a : IPAddress)
  | server_begin
  | server_setNoDelay (b : bool).

Definition External_WiFi_SSID : string := "MyHomeWiFi".
Definition External_WiFi_Password : string := "myPassword".
Definition WiFi_Access_Point_Name : string := "TelescopeDSC".
Definition WiFi_Access_Point_Passw : string := "Fluorite".

Definition wl_status_eqb (a b : wl_status) : bool :=
  match a, b with
  | WL_IDLE_STATUS, WL_IDLE_STATUS | WL_NO_SSID_AVAIL, WL_NO_SSID_AVAIL
  | WL_SCAN_COMPLETED, WL_SCAN_COMPLETED | WL_CONNECTED, WL_CONNECTED
  | WL_CONNECT_FAILED, WL_CONNECT_FAILED | WL_CONNECTION_LOST, WL_CONNECTION_LOST
  | WL_DISCONNECTED, WL_DISCONNECTED | WL_NO_SHIELD, WL_NO_SHIELD => true
  | _, _ => false
  end.

(** [void setup()] of the ESP8266 half. *)
Definition setup (env : wifi_env) : list call :=
  [Serial_begin 115200; delay 2000;
   WiFi_mode WIFI_STA;
   WiFi_begin External_WiFi_SSID External_WiFi_Password;
   delay 5000] ++
  (if negb (wl_status_eqb (status_after_begin env) WL_CONNECTED) then
     [Serial_println "Failed to connect to WiFi, starting AP";
      WiFi_mode WIFI_AP;
      WiFi_softAPConfig (IP 1 2 3 4) (IP 1 2 3 1) (IP 255 255 255 0);
      WiFi_softAP WiFi_Access_Point_Name WiFi_Access_Point_Passw;
      Serial_println_ip (softAPIP env)]
   else
     [Serial_println_ip (localIP env)]) ++
  [server_begin; server_setNoDelay true].

(** How the serving node is reachable, read off the calls made so far:
    the mode selected last, and for an access point the addresses
    configured last.  [None]: no mode selected, or an access point
    without addresses. *)
Inductive NetworkIdentity :=
  | Joined
  | SelfHosted (ip gateway subnet : IPAddress).

Definition mode_of (c : call) : option wifi_mode :=
  match c with WiFi_mode m => Some m | _ => None end.
Definition ap_config_of (c : call) : option NetworkIdentity :=
  match c with WiFi_softAPConfig ip gw sn => Some (SelfHosted ip gw sn) | _ => None end.

Definition network_identity (tr : list call) : option NetworkIdentity :=
  match last (omap mode_of tr) with
  | Some WIFI_STA => Some Joined
  | Some WIFI_AP => last (omap ap_config_of tr)
  | None => None
  end.

Definition is_join (c : call) : bool :=
  match c with WiFi_begin _ _ => true | _ => false end.
Definition is_fallback (c : call) : bool :=
  match c with WiFi_mode WIFI_AP => true | _ => false end.

(** Calls that set up or start the access point. *)
Definition is_access_point_call (c : call) : bool :=
  match c with
  | WiFi_mode WIFI_AP | WiFi_softAPConfig _ _ _ | WiFi_softAP _ _ => true
  | _ => false
  end.

(** Number of join attempts in a sequence of calls. *)
Definition join_attempts (tr : list call) : nat :=
  length (List.filter is_join tr).

(** The calls made after the first switch to access-point mode. *)
Fixpoint after_fallback (tr : list call) : list call :=
  match tr with
  | [] => []
  | c :: tr' => if is_fallback c then tr' else after_fallback tr'
  end.

(** ** The whole node *)

Record esp := Esp {
  line : line_state;        (* [buf] and [pos] *)
  Azimuth_pos : Z;
  Altitude_pos : Z;
  tcp : tcp_state;
  serial_rx : list Z;       (* UART receive queue, fed by the Arduino *)
  AltitudeEncoder : Z;      (* count held by the encoder object *)
  calls : list call         (* board and WiFi calls made so far *)
}.

(** Process start: globals are zero, nothing received, encoder at zero. *)
Definition esp_init : esp :=
  {| line := line_init; Azimuth_pos := 0; Altitude_pos := 0; tcp := tcp_init;
     serial_rx := []; AltitudeEncoder := 0; calls := [] |}.

Definition run_setup (env : wifi_env) (st : esp) : esp :=
  {| line := line st; Azimuth_pos := Azimuth_pos st; Altitude_pos := Altitude_pos st;
     tcp := tcp st; serial_rx := serial_rx st; AltitudeEncoder := AltitudeEncoder st;
     calls := calls st ++ setup env |}.

(** Lines 129-132: the new value of [Azimuth_pos] given the result [n] of
    [readFromSerial(buf)] and the buffer it left. *)
Definition update_azimuth (n : Z) (b : list Z) (old : Z) : Z :=
  if 0 <? n then atol b else old.

(** [void loop()] of the ESP8266 half. *)
Definition loop (st : esp) : esp :=
  let '(character, q) := Serial_read (serial_rx st) in
  let '(n, ls) := readFromSerial (line st) character in
  let az := update_azimuth n (buf ls) (Azimuth_pos st) in
  let alt := AltitudeEncoder st in
  {| line := ls; Azimuth_pos := az; Altitude_pos := alt;
     tcp := attendTcpRequests az alt (tcp st);
     serial_rx := q; AltitudeEncoder := AltitudeEncoder st; calls := calls st |}.

(** What happens around the node between two iterations of [loop]. *)
Inductive event :=
  | EvSerial (bs : list Z)            (* bytes arrive from the Arduino *)
  | EvEncoder (count : Z)             (* the altitude encoder moves *)
  | EvConnect                         (* the stack accepts a new connection *)
  | EvData (c : nat) (bs : list Z)    (* a peer sends bytes *)
  | EvPeerClose (c : nat)             (* a peer closes its connection *)
  | EvLoop.                           (* the Arduino core calls [loop()] *)

Definition peer_send (bs : list Z) (k : conn) : conn :=
  if established k then
    {| established := true; rx := rx k ++ bs; tx := tx k; stopped := stopped k |}
  else k.

Definition peer_close (k : conn) : conn :=
  {| established := false; rx := rx k; tx := tx k; stopped := stopped k |}.

Definition tcp_event (e : event) (t : tcp_state) : tcp_state :=
  match e with
  | EvConnect =>
      {| serverClients := serverClients t; conns := conns t ++ [fresh_conn];
         unclaimed := unclaimed t ++ [length (conns t)] |}
  | EvData c bs => set_conns (alter (peer_send bs) c (conns t)) t
  | EvPeerClose c => set_conns (alter peer_close c (conns t)) t
  | _ => t
  end.

Definition step (st : esp) (e : event) : esp :=
  match e with
  | EvLoop => loop st
  | EvSerial bs =>
      {| line := line st; Azimuth_pos := Azimuth_pos st; Altitude_pos := Altitude_pos st;
         tcp := tcp st; serial_rx := serial_rx st ++ bs;
         AltitudeEncoder := AltitudeEncoder st; calls := calls st |}
  | EvEncoder count =>
      {| line := line st; Azimuth_pos := Azimuth_pos st; Altitude_pos := Altitude_pos st;
         tcp := tcp st; serial_rx := serial_rx st;
         AltitudeEncoder := count; calls := calls st |}
  | _ =>
      {| line := line st; Azimuth_pos := Azimuth_pos st; Altitude_pos := Altitude_pos st;
         tcp := tcp_event e (tcp st); serial_rx := serial_rx st;
         AltitudeEncoder := AltitudeEncoder st; calls := calls st |}
  end.

(** The Arduino core runs [setup()] once, then [loop()] for ever; [run]
    is the state after [setup] and the events [es]. *)
Definition run (env : wifi_env) (es : list event) : esp :=
  foldl step (run_setup env esp_init) es.


(** ** Predicates used in the statements *)

(** A byte that [readFromSerial] appends to the line (when room is left):
    positive, and neither CR nor LF. *)
Definition storable (c : Z) : Prop := 0 < c /\ c <> CR /\ c <> LF.

#[global] Instance storable_dec c : Decision (storable c).
Proof. unfold storable. apply _. Defined.

(** What [Serial.read()] can return: [-1] or a byte. *)
Definition read_result (c : Z) : Prop := -1 <= c <= 255.

(** The bytes of an input that take part in the line: CR, NUL and "no
    byte" are left out. *)
Definition payload (cs : list Z) : list Z := filter storable cs.

(** Shape of the parser state that every run preserves. *)
Definition line_inv (st : line_state) : Prop :=
  length (buf st) = Z.to_nat BUFFER_SIZE /\
  0 <= pos st <= BUFFER_SIZE - 1 /\
  buf st !! Z.to_nat (BUFFER_SIZE - 1) = Some 0.

(** The pending line of the parser is [l]: [pos] is its length, the buffer
    starts with it, and it is NUL-terminated once a byte has been stored. *)
Definition pending (st : line_state) (l : list Z) : Prop :=
  line_inv st /\
  pos st = Z.of_nat (length l) /\
  take (length l) (buf st) = l /\
  (l <> [] -> buf st !! length l = Some 0).

(** A line of decimal digits and the number it denotes. *)
Definition digits (ds : list Z) : Prop := Forall (fun c => isdigit c = true) ds.
Definition decimal_value (ds : list Z) : Z :=
  foldl (fun acc c => acc * 10 + (c - 48)) 0 ds.

(** A line with no leading number: after white space and an optional sign
    there is no digit. *)
Definition strip_sign (s : list Z) : list Z :=
  match s with
  | c :: s' => if (c =? 45) || (c =? 43) then s' else s
  | [] => []
  end.

Definition non_numeric (l : list Z) : Prop :=
  match strip_sign (skip_space l) with
  | c :: _ => isdigit c = false
  | [] => True
  end.

(** What the [switch] of [attendTcpRequests] makes of a connection whose
    command byte [ch] has just been read. *)
Definition served (az alt : Z) (ch : Z) (k : conn) : conn :=
  if ch =? 81 then
    {| established := established k; rx := rx k;
       tx := tx k ++ println (Q_response az alt); stopped := stopped k |}
  else if ch =? 72 then
    {| established := established k; rx := rx k;
       tx := tx k ++ println H_response; stopped := stopped k |}
  else if ch =? 71 then
    {| established := false; rx := [];
       tx := tx k ++ http_header
                  ++ [Z.of_nat (length (Q_response az alt)) mod 256]
                  ++ [CR; LF; CR; LF]
                  ++ println (Q_response az alt);
       stopped := true |}
  else k.

(** A connection with its oldest unread byte taken off. *)
Definition pop_rx (k : conn) : conn :=
  {| established := established k; rx := tail (rx k); tx := tx k; stopped := stopped k |}.

(** The state left by lines 146-151 when the scan stops at spot [i]: a
    stale handle is stopped, and the oldest pending connection is placed
    in the spot. *)
Definition claim_spot (i : nat) (t : tcp_state) : tcp_state :=
  let t1 := client_stop (slot t i) t in
  let '(h, t2) := server_available t1 in
  set_clients (<[i := h]> (serverClients t2)) t2.

(** Shape of the connection pool that every run preserves: the array has
    [MAX_SRV_CLIENTS] spots; a handle held in a spot names a connection of
    the stack that is no longer pending; no connection is held in two
    spots; the pending queue has no duplicates. *)
Definition tcp_inv (t : tcp_state) : Prop :=
  length (serverClients t) = MAX_SRV_CLIENTS /\
  (forall i c, serverClients t !! i = Some (Some c) ->
     (c < length (conns t))%nat /\ c ∉ unclaimed t) /\
  (forall i j c, serverClients t !! i = Some (Some c) ->
     serverClients t !! j = Some (Some c) -> i = j) /\
  NoDup (unclaimed t) /\
  (forall c, c ∈ unclaimed t -> (c < length (conns t))%nat).


(** Events that bring neither serial data nor encoder movement. *)
Definition quiet (e : event) : Prop :=
  match e with
  | EvSerial _ | EvEncoder _ => False
  | _ => True
  end.

(** An environment in which the external network cannot be joined. *)
Definition env_no_network : wifi_env :=
  {| status_after_begin := WL_CONNECT_FAILED;
     localIP := IP 0 0 0 0; softAPIP := IP 1 2 3 4 |}.

(** A value of the 32-bit [long] (and of the [int32_t] of the encoder
    library). *)
Definition in_long (v : Z) : Prop := LONG_MIN <= v <= LONG_MAX.

(** A result of [Serial.read()] that [readFromSerial] does not skip:
    positive and not CR. *)
Definition consumed (c : Z) : Prop := 0 < c /\ c <> CR.

#[global] Instance consumed_dec c : Decision (consumed c).
Proof. unfold consumed. apply _. Defined.

(** [strlen] of the C library on an array: the number of bytes before the
    first NUL. *)
Fixpoint strlen (s : list Z) : Z :=
  match s with
  | c :: s' => if c =? NUL then 0 else 1 + strlen s'
  | [] => 0
  end.

(** What the Uno puts on the serial link for a sequence of encoder
    counts, one [Uno.loop] per count. *)
Definition uno_output (counts : list Z) : list Z :=
  concat (Uno.loop <$> counts).

(** [n] iterations of [loop] with nothing happening in between. *)
Definition loops (n : nat) (st : esp) : esp :=
  foldl step st (replicate n EvLoop).

(** Events whose encoder counts are values of [int32_t]. *)
Definition encoder_in_range (e : event) : Prop :=
  match e with
  | EvEncoder count => in_long count
  | _ => True
  end.

(** No handle, in a spot or in the pending queue, names a connection that
    [stop()] has closed. *)
Definition handles_open (t : tcp_state) : Prop :=
  (forall i c, serverClients t !! i = Some (Some c) ->
     exists k, conns t !! c = Some k /\ stopped k = false) /\
  (forall c, c ∈ unclaimed t ->
     exists k, conns t !! c = Some k /\ stopped k = false).

(** Events that can bear on the stored positions: serial bytes, encoder
    movement and iterations of [loop]; the others come from the network. *)
Definition position_event (e : event) : Prop :=
  match e with
  | EvSerial _ | EvEncoder _ | EvLoop => True
  | _ => False
  end.

#[global] Instance position_event_dec e : Decision (position_event e).
Proof. destruct e; simpl; apply _. Defined.

(** ** The serial line parser: basic facts *)

Lemma readFromSerial_not_positive st c :
  c <= 0 -> readFromSerial st c = (0, st).
Proof.
  intros Hc. unfold readFromSerial.
  destruct (Z.ltb_spec 0 c); [lia | done].
Qed.

Lemma readFromSerial_CR st : readFromSerial st CR = (0, st).
Proof. done. Qed.

Lemma readFromSerial_LF st :
  readFromSerial st LF = (pos st, {| buf := buf st; pos := 0 |}).
Proof. done. Qed.

Lemma readFromSerial_full st c :
  BUFFER_SIZE - 1 <= pos st -> c <> LF -> readFromSerial st c = (0, st).
Proof.
  intros Hp Hc. unfold readFromSerial.
  destruct (0 <? c); [|done].
  destruct (c =? CR); [done|].
  destruct (Z.eqb_spec c LF); [done|].
  destruct (Z.ltb_spec (pos st) (BUFFER_SIZE - 1)); [lia | done].
Qed.

Lemma readFromSerial_store st c :
  storable c -> pos st < BUFFER_SIZE - 1 ->
  readFromSerial st c =
    (0, {| buf := <[Z.to_nat (pos st + 1) := 0]>
                    (<[Z.to_nat (pos st) := to_char c]> (buf st));
           pos := pos st + 1 |}).
Proof.
  intros (H0 & Hcr & Hlf) Hp. unfold readFromSerial.
  destruct (Z.ltb_spec 0 c); [|lia].
  destruct (Z.eqb_spec c CR); [done|].
  destruct (Z.eqb_spec c LF); [done|].
  destruct (Z.ltb_spec (pos st) (BUFFER_SIZE - 1)); [done | lia].
Qed.

Lemma readFromSerial_ignored st c :
  ~ storable c -> c <> LF -> readFromSerial st c = (0, st).
Proof.
  intros Hs Hlf. unfold storable in Hs.
  destruct (Z.le_gt_cases c 0) as [H|H].
  - by apply readFromSerial_not_positive.
  - destruct (Z.eq_dec c CR) as [->|]; [apply readFromSerial_CR | tauto].
Qed.

Lemma readFromSerial_ret_nonLF st c :
  c <> LF -> fst (readFromSerial st c) = 0.
Proof.
  intros Hc. unfold readFromSerial.
  destruct (0 <? c); [|done].
  destruct (c =? CR); [done|].
  destruct (Z.eqb_spec c LF); [done|].
  by destruct (pos st <? BUFFER_SIZE - 1).
Qed.

Lemma line_inv_init : line_inv line_init.
Proof. by vm_compute. Qed.

Lemma line_inv_step st c :
  line_inv st -> line_inv (snd (readFromSerial st c)).
Proof.
  intros (Hlen & Hpos & Hlast). unfold readFromSerial.
  destruct (0 <? c); [|done].
  destruct (c =? CR); [done|].
  destruct (c =? LF).
  { unfold line_inv, BUFFER_SIZE in *. split_and!; simpl; try done; lia. }
  destruct (Z.ltb_spec (pos st) (BUFFER_SIZE - 1)); [|done].
  unfold line_inv, BUFFER_SIZE in *. split_and!; simpl.
  - by rewrite !length_insert.
  - lia.
  - lia.
  - destruct (decide (Z.to_nat (pos st + 1) = Z.to_nat (80 - 1))) as [->|Hne].
    + apply list_lookup_insert_eq. rewrite length_insert. lia.
    + rewrite list_lookup_insert_ne by done.
      rewrite list_lookup_insert_ne by lia. done.
Qed.

Lemma line_inv_feed st cs : line_inv st -> line_inv (feed st cs).
Proof.
  revert st. induction cs as [|c cs IH]; intros st Hst; [done|].
  apply IH. by apply line_inv_step.
Qed.

(** ** The pending line *)

Lemma pending_length st l : pending st l -> (length l <= 79)%nat.
Proof.
  intros ((_ & Hp & _) & Hl & _). unfold BUFFER_SIZE in *. lia.
Qed.

Lemma pending_init : pending line_init [].
Proof. split; [apply line_inv_init | done]. Qed.

Lemma pending_after_LF st :
  line_inv st -> pending (snd (readFromSerial st LF)) [].
Proof.
  intros Hst. split; [by apply line_inv_step | done].
Qed.

Lemma pending_store st l c :
  pending st l -> storable c -> (length l < 79)%nat ->
  pending (snd (readFromSerial st c)) (l ++ [to_char c]).
Proof.
  intros (Hinv & Hpos & Htake & Hnul) Hc Hl.
  split; [by apply line_inv_step|].
  rewrite readFromSerial_store by (unfold BUFFER_SIZE; done || lia).
  destruct Hinv as (Hlen & _ & _). unfold BUFFER_SIZE in Hlen.
  rewrite Hpos, length_app. simpl.
  replace (Z.to_nat (Z.of_nat (length l) + 1)) with (S (length l)) by lia.
  rewrite Nat2Z.id.
  split_and!.
  - lia.
  - replace (length l + 1)%nat with (S (length l)) by lia.
    rewrite take_insert_ge by lia.
    erewrite take_S_r by (apply list_lookup_insert_eq; lia).
    by rewrite take_insert_ge, Htake by lia.
  - intros _. replace (length l + 1)%nat with (S (length l)) by lia.
    apply list_lookup_insert_eq. rewrite length_insert. lia.
Qed.

(** Bytes that are dropped or ignored leave the pending line as it is. *)
Lemma pending_feed st l cs :
  pending st l -> Forall (fun c => c <> LF) cs ->
  pending (feed st cs) (take 79 (l ++ (to_char <$> payload cs))).
Proof.
  revert st l. induction cs as [|c cs IH]; intros st l Hst Hcs.
  - simpl. rewrite app_nil_r, take_ge; [done | by eapply pending_length].
  - apply Forall_cons in Hcs as [Hc Hcs]. unfold payload in *.
    rewrite filter_cons. simpl. destruct (decide (storable c)) as [Hs|Hs].
    + destruct (decide (length l < 79)%nat) as [Hl|Hl].
      * specialize (IH _ _ (pending_store _ _ _ Hst Hs Hl) Hcs).
        by rewrite <- app_assoc in IH.
      * pose proof (pending_length _ _ Hst) as Hle.
        rewrite readFromSerial_full; [|destruct Hst as (_ & -> & _); unfold BUFFER_SIZE; lia|done].
        specialize (IH _ _ Hst Hcs). simpl.
        rewrite take_app_le in IH |- * by lia. done.
    + rewrite readFromSerial_ignored by done. by apply IH.
Qed.

(** No completed line is reported before the line feed. *)
Lemma feed_returns_zero st cs :
  Forall (fun c => c <> LF) cs ->
  forall pre c suf, cs = pre ++ c :: suf ->
    fst (readFromSerial (feed st pre) c) = 0.
Proof.
  intros Hcs pre c suf ->. apply readFromSerial_ret_nonLF.
  apply Forall_app in Hcs as [_ Hcs]. by apply Forall_cons in Hcs as [? _].
Qed.

Lemma to_char_byte c : 0 <= c <= 255 -> to_char c = c.
Proof. intros H. unfold to_char. by rewrite Z.mod_small by lia. Qed.

Lemma payload_bytes cs :
  Forall read_result cs -> to_char <$> payload cs = payload cs.
Proof.
  intros Hcs. unfold payload. induction Hcs as [|c cs Hc _ IH]; [done|].
  rewrite filter_cons. destruct (decide (storable c)) as [Hs|]; [|done].
  rewrite fmap_cons, IH, to_char_byte; [done|].
  unfold storable, read_result in *. lia.
Qed.

Lemma payload_storable cs : Forall storable cs -> payload cs = cs.
Proof.
  unfold payload. induction 1 as [|c cs Hc _ IH]; [done|].
  rewrite filter_cons. destruct (decide (storable c)); [by rewrite IH | done].
Qed.

Lemma feed_app st cs1 cs2 : feed (feed st cs1) cs2 = feed st (cs1 ++ cs2).
Proof. unfold feed. by rewrite foldl_app. Qed.

(** ** [atol] on the buffer *)

Lemma digits_value_app ds rest acc :
  digits ds ->
  digits_value acc (ds ++ rest) =
    digits_value (foldl (fun a c => a * 10 + (c - 48)) acc ds) rest.
Proof.
  intros Hds. revert acc. induction Hds as [|d ds Hd _ IH]; intros acc; [done|].
  simpl. by rewrite Hd, IH.
Qed.

Lemma digits_value_stop acc c rest :
  isdigit c = false -> digits_value acc (c :: rest) = acc.
Proof. intros H. simpl. by rewrite H. Qed.

Lemma isdigit_not_space c : isdigit c = true -> isspace c = false.
Proof. unfold isdigit, isspace. lia. Qed.

Lemma isdigit_not_sign c : isdigit c = true -> (c =? 45) = false /\ (c =? 43) = false.
Proof. unfold isdigit. lia. Qed.

(** A run of digits followed by NUL parses to its value, clamped. *)
Lemma atol_digits ds rest :
  digits ds -> atol (ds ++ NUL :: rest) = Z.min LONG_MAX (decimal_value ds).
Proof.
  intros Hds. unfold atol. destruct Hds as [|d ds Hd Hds].
  - simpl. done.
  - simpl. rewrite (isdigit_not_space _ Hd).
    destruct (isdigit_not_sign _ Hd) as [-> ->].
    rewrite Hd, digits_value_app by done.
    by rewrite digits_value_stop.
Qed.

Lemma skip_space_app_nil l r : skip_space l = [] -> skip_space (l ++ r) = skip_space r.
Proof.
  induction l as [|c l IH]; [done|]. simpl.
  destruct (isspace c); [done | discriminate].
Qed.

Lemma skip_space_app_cons l r c l' :
  skip_space l = c :: l' -> skip_space (l ++ r) = c :: l' ++ r.
Proof.
  induction l as [|a l IH]; [done|]. simpl.
  destruct (isspace a); [done|]. by intros [= -> ->].
Qed.

(** A line with no leading number parses to 0. *)
Lemma atol_non_numeric l rest :
  non_numeric l -> atol (l ++ NUL :: rest) = 0.
Proof.
  unfold non_numeric, atol. intros Hn.
  destruct (skip_space l) as [|c l'] eqn:Hs.
  - rewrite (skip_space_app_nil _ _ Hs). done.
  - rewrite (skip_space_app_cons _ _ _ _ Hs). simpl in Hn.
    destruct (Z.eqb_spec c 45) as [->|H45]; simpl in Hn.
    { destruct l' as [|c2 l2]; simpl; [done|]. by rewrite Hn. }
    destruct (Z.eqb_spec c 43) as [->|H43]; simpl in Hn.
    { destruct l' as [|c2 l2]; simpl; [done|]. by rewrite Hn. }
    simpl. by rewrite Hn.
Qed.

Lemma skip_space_app_stop l c r :
  isspace c = false -> skip_space (l ++ c :: r) = skip_space l ++ c :: r.
Proof.
  intros Hc. induction l as [|a l IH]; simpl; [by rewrite Hc|].
  by destruct (isspace a).
Qed.

Lemma digits_value_cstring acc l rest :
  digits_value acc (l ++ NUL :: rest) = digits_value acc (l ++ [NUL]).
Proof.
  revert acc. induction l as [|c l IH]; intros acc; [done|].
  simpl. by destruct (isdigit c).
Qed.

(** [atol] reads a C string: nothing after the first NUL matters. *)
Lemma atol_cstring l rest : atol (l ++ NUL :: rest) = atol (l ++ [NUL]).
Proof.
  unfold atol. rewrite !skip_space_app_stop by done.
  destruct (skip_space l) as [|c l']; [done|]. simpl.
  by rewrite !digits_value_cstring with (rest := rest).
Qed.

(** The buffer behind a pending, non-empty line. *)
Lemma pending_buf st l :
  pending st l -> l <> [] ->
  buf st = l ++ NUL :: drop (S (length l)) (buf st).
Proof.
  intros (_ & _ & Htake & Hnul) Hl.
  rewrite <- Htake at 1. symmetry. apply take_drop_middle. by apply Hnul.
Qed.

Lemma feed_no_payload st cs :
  Forall (fun c => c <> LF) cs -> payload cs = [] -> feed st cs = st.
Proof.
  unfold payload. induction cs as [|c cs IH]; intros Hcs Hp; [done|].
  apply Forall_cons in Hcs as [Hc Hcs]. rewrite filter_cons in Hp.
  destruct (decide (storable c)); [done|]. simpl.
  rewrite readFromSerial_ignored by done. by apply IH.
Qed.

(** ** Properties of the serial line parser *)

(** C10: a NUL byte is treated by [readFromSerial] exactly like "no byte
    available": the result is 0 and the buffer and the position are left
    as they were. *)
Theorem C10_nul_byte_is_dropped (st : line_state) :
  readFromSerial st NUL = (0, st) /\
  readFromSerial st NUL = readFromSerial st (-1).
Proof. split; by rewrite !readFromSerial_not_positive. Qed.

Lemma pos_zero_eta st : pos st = 0 -> {| buf := buf st; pos := 0 |} = st.
Proof. destruct st as [b p]. simpl. by intros ->. Qed.

(** C6, as the code has it: a line feed on an empty buffer returns 0 and
    leaves the state as it was, which is exactly what "no byte available"
    does; the test [readFromSerial(buf) > 0] of [loop] then fails and
    [Azimuth_pos] keeps its value. *)
Theorem C6_empty_line_returns_zero (st : line_state) (old : Z) :
  pos st = 0 ->
  readFromSerial st LF = (0, st) /\
  readFromSerial st LF = readFromSerial st (-1) /\
  update_azimuth (fst (readFromSerial st LF)) (buf (snd (readFromSerial st LF))) old = old.
Proof.
  intros Hp. rewrite readFromSerial_LF, Hp, (pos_zero_eta _ Hp).
  by rewrite readFromSerial_not_positive.
Qed.

Lemma C6_empty_line_returns_zero_witness :
  pos line_init = 0 /\
  readFromSerial line_init LF = (0, line_init) /\
  readFromSerial line_init LF = readFromSerial line_init (-1) /\
  update_azimuth (fst (readFromSerial line_init LF))
                 (buf (snd (readFromSerial line_init LF))) 42 = 42.
Proof. split; [reflexivity | apply (C6_empty_line_returns_zero line_init 42); reflexivity]. Defined.

(** At process start, the caller of [readFromSerial] sees the same result
    and the same state for an empty line as for "no byte available". *)
Lemma C6_counterexample :
  ~ (readFromSerial line_init LF <> readFromSerial line_init (-1)).
Proof. intros H. by apply H. Qed.

(** C3: on every input the position stays within the buffer, whose size
    never changes; a byte that arrives when the buffer is full is dropped;
    the position goes back to zero on a line feed and on nothing else; and
    the line completed by a line feed is the first 79 bytes, at most, of
    the payload received since the previous line (of the input itself
    when it has no CR, NUL or empty read). *)
Theorem C3_buffer_is_bounded_and_truncates :
  (forall cs : list Z,
     let st := feed line_init cs in
     length (buf st) = Z.to_nat BUFFER_SIZE /\
     0 <= pos st < BUFFER_SIZE /\
     (forall c, pos st = BUFFER_SIZE - 1 -> c <> LF -> readFromSerial st c = (0, st)) /\
     (forall c, (c = LF -> pos (snd (readFromSerial st c)) = 0) /\
                (c <> LF -> pos st <= pos (snd (readFromSerial st c))))) /\
  (forall cs line : list Z,
     pos (feed line_init cs) = 0 ->
     Forall read_result line -> Forall (fun c => c <> LF) line ->
     let st := feed (feed line_init cs) line in
     let n := fst (readFromSerial st LF) in
     n = Z.of_nat (length (take 79 (payload line))) /\
     take (Z.to_nat n) (buf (snd (readFromSerial st LF))) = take 79 (payload line) /\
     take 79 (payload line) `prefix_of` payload line /\
     (Forall storable line -> payload line = line) /\
     pos (snd (readFromSerial st LF)) = 0).
Proof.
  split.
  - intros cs st.
    pose proof (line_inv_feed line_init cs line_inv_init) as Hinv.
    fold st in Hinv. destruct Hinv as (Hlen & Hpos & _).
    split_and!; try done; try (unfold BUFFER_SIZE in *; lia).
    + intros c Hp Hc. apply readFromSerial_full; [lia | done].
    + intros c. split; [by intros -> |].
      intros Hc. unfold readFromSerial.
      destruct (0 <? c); [|done]. destruct (c =? CR); [done|].
      destruct (Z.eqb_spec c LF); [done|].
      destruct (pos st <? BUFFER_SIZE - 1); simpl; lia.
  - intros cs line Hp Hrd Hlf st n.
    assert (pending (feed line_init cs) []) as H0.
    { split; [apply line_inv_feed, line_inv_init | done]. }
    pose proof (pending_feed _ _ _ H0 Hlf) as Hpend.
    rewrite payload_bytes in Hpend by done. simpl in Hpend. fold st in Hpend.
    destruct Hpend as (_ & Hpos & Htake & _).
    subst n. rewrite readFromSerial_LF. simpl.
    split_and!; [done | by rewrite Hpos, Nat2Z.id | apply prefix_take
                | apply payload_storable | done].
Qed.

Lemma C3_buffer_is_bounded_and_truncates_witness :
  let line := replicate 100 65 in
  fst (readFromSerial (feed (feed line_init [49; 50; LF]) line) LF) = 79 /\
  take 79 (buf (snd (readFromSerial (feed (feed line_init [49; 50; LF]) line) LF)))
    = replicate 79 65.
Proof.
  intros line.
  assert (Forall read_result line) as H1.
  { apply Forall_replicate. unfold read_result. lia. }
  assert (Forall (fun c => c <> LF) line) as H2.
  { by apply Forall_replicate. }
  destruct (proj2 C3_buffer_is_bounded_and_truncates [49; 50; LF] line eq_refl H1 H2)
    as (Hn & Hb & _).
  split.
  - rewrite Hn. reflexivity.
  - rewrite Hn in Hb. exact Hb.
Defined.

(** C2, within the range of [long]: a line of decimal digits (CR, NUL and
    empty reads may be interleaved) of fewer than [BUFFER_SIZE] digits,
    whose value is at most [LONG_MAX], makes [readFromSerial] return 0 for
    every byte before the line feed and the number of digits at the line
    feed, and [atol] of the buffer is then the value of the digits.  The
    line is the first since process start or has at least one digit. *)
Theorem C2_digit_line_round_trip (pre cs : list Z) :
  pos (feed line_init pre) = 0 ->
  payload cs <> [] \/ pre = [] ->
  Forall read_result cs -> Forall (fun c => c <> LF) cs ->
  digits (payload cs) ->
  Z.of_nat (length (payload cs)) < BUFFER_SIZE ->
  decimal_value (payload cs) <= LONG_MAX ->
  let st := feed (feed line_init pre) cs in
  (forall cs1 c cs2, cs = cs1 ++ c :: cs2 ->
     fst (readFromSerial (feed (feed line_init pre) cs1) c) = 0) /\
  fst (readFromSerial st LF) = Z.of_nat (length (payload cs)) /\
  atol (buf (snd (readFromSerial st LF))) = decimal_value (payload cs).
Proof.
  intros Hp Hne Hrd Hlf Hds Hlen Hmax st.
  split; [by apply feed_returns_zero|].
  assert (pending (feed line_init pre) []) as H0.
  { split; [apply line_inv_feed, line_inv_init | done]. }
  pose proof (pending_feed _ _ _ H0 Hlf) as Hpend.
  rewrite payload_bytes in Hpend by done. simpl in Hpend. fold st in Hpend.
  rewrite take_ge in Hpend by (unfold BUFFER_SIZE in Hlen; lia).
  rewrite readFromSerial_LF. simpl.
  split; [by destruct Hpend as (_ & -> & _)|].
  destruct (decide (payload cs = [])) as [Hnil|Hnil].
  - destruct Hne as [Hx | ->]; [done|].
    subst st. simpl. rewrite feed_no_payload by done.
    by rewrite Hnil.
  - rewrite (pending_buf _ _ Hpend Hnil), atol_digits by done. lia.
Qed.

Lemma C2_digit_line_round_trip_witness :
  let cs := [49; 48; CR] in
  fst (readFromSerial (feed (feed line_init [55; LF]) cs) LF) = 2 /\
  atol (buf (snd (readFromSerial (feed (feed line_init [55; LF]) cs) LF))) = 10.
Proof.
  intros cs.
  assert (payload cs <> [] \/ [55; LF] = []) as H1 by (left; discriminate).
  assert (Forall read_result cs) as H2.
  { unfold read_result. repeat constructor; vm_compute; discriminate. }
  assert (Forall (fun c => c <> LF) cs) as H3.
  { repeat constructor; discriminate. }
  assert (digits (payload cs)) as H4.
  { repeat constructor. }
  assert (Z.of_nat (length (payload cs)) < BUFFER_SIZE) as H5 by reflexivity.
  assert (decimal_value (payload cs) <= LONG_MAX) as H6.
  { vm_compute. discriminate. }
  exact (proj2 (C2_digit_line_round_trip [55; LF] cs eq_refl H1 H2 H3 H4 H5 H6)).
Defined.

(** Eleven digits 9 are fewer than [BUFFER_SIZE] digits, but their value
    does not fit a [long]: [atol] yields [LONG_MAX]. *)
Lemma C2_counterexample :
  let cs := replicate 11 57 in
  let st := feed line_init cs in
  digits cs /\ Z.of_nat (length cs) < BUFFER_SIZE /\
  fst (readFromSerial st LF) = 11 /\
  decimal_value cs = 99999999999 /\
  atol (buf (snd (readFromSerial st LF))) = 2147483647 /\
  atol (buf (snd (readFromSerial st LF))) <> decimal_value cs.
Proof.
  intros cs st. split_and!; try reflexivity.
  - by apply Forall_replicate.
  - vm_compute. discriminate.
Qed.

(** ** The run loop and the azimuth *)

(** Opens [loop st] on the byte read and on the result of the parser. *)
Ltac open_loop st :=
  unfold loop;
  destruct (Serial_read (serial_rx st)) as [? ?]; simpl;
  destruct (readFromSerial (line st) _) as [? ?]; simpl.

Lemma Azimuth_pos_loop st :
  Azimuth_pos (loop st) =
    let r := readFromSerial (line st) (fst (Serial_read (serial_rx st))) in
    update_azimuth (fst r) (buf (snd r)) (Azimuth_pos st).
Proof. by open_loop st. Qed.

(** C1, as the code has it: when the line completed by a line feed is not
    empty, [loop] stores [atol] of the line in [Azimuth_pos]; for a line
    with no leading number that is 0, so the previous value is lost.  The
    previous value is kept when the completed line is empty. *)
Theorem C1_malformed_line_stores_zero (st : esp) (l q : list Z) :
  pending (line st) l -> serial_rx st = LF :: q ->
  (l <> [] -> non_numeric l -> Azimuth_pos (loop st) = 0) /\
  (l <> [] -> Azimuth_pos (loop st) = atol (l ++ [NUL])) /\
  (l = [] -> Azimuth_pos (loop st) = Azimuth_pos st).
Proof.
  intros Hpend Hrx. rewrite Azimuth_pos_loop, Hrx.
  change (fst (Serial_read (LF :: q))) with LF. cbv zeta.
  rewrite readFromSerial_LF. cbn [fst snd buf]. unfold update_azimuth.
  assert (l <> [] -> 0 < pos (line st)) as Hpos.
  { destruct Hpend as (_ & -> & _). destruct l; [done | simpl; lia]. }
  split_and!.
  - intros Hl Hn. destruct (Z.ltb_spec 0 (pos (line st))); [|specialize (Hpos Hl); lia].
    rewrite (pending_buf _ l) by done. by apply atol_non_numeric.
  - intros Hl. destruct (Z.ltb_spec 0 (pos (line st))); [|specialize (Hpos Hl); lia].
    rewrite (pending_buf _ l) by done. apply atol_cstring.
  - intros ->. destruct Hpend as (_ & -> & _). done.
Qed.

Lemma C1_malformed_line_stores_zero_witness :
  let st := run env_no_network
              (EvSerial [49; 50; 51; LF; 97; 98; 99; LF] :: replicate 7 EvLoop) in
  Azimuth_pos st = 123 /\ Azimuth_pos (loop st) = 0.
Proof.
  intros st. split; [reflexivity|].
  assert (pending (line st) [97; 98; 99]) as Hpend.
  { repeat split; vm_compute; (reflexivity || discriminate). }
  assert (serial_rx st = LF :: []) as Hrx by reflexivity.
  apply (proj1 (C1_malformed_line_stores_zero st [97; 98; 99] [] Hpend Hrx)).
  - discriminate.
  - reflexivity.
Defined.

(** After the line [123] the azimuth is 123; the malformed line [abc]
    then replaces it by 0. *)
Lemma C1_counterexample :
  let st := run env_no_network
              (EvSerial [49; 50; 51; LF; 97; 98; 99; LF] :: replicate 7 EvLoop) in
  Azimuth_pos st = 123 /\
  take (Z.to_nat (pos (line st))) (buf (line st)) = [97; 98; 99] /\
  non_numeric [97; 98; 99] /\
  serial_rx st = [LF] /\
  Azimuth_pos (loop st) = 0 /\
  Azimuth_pos (loop st) <> Azimuth_pos st.
Proof. intros st. split_and!; try reflexivity. vm_compute. discriminate. Qed.

(** ** Decimal formatting and its inverse *)

Lemma decimal_value_snoc ds d :
  decimal_value (ds ++ [d]) = decimal_value ds * 10 + (d - 48).
Proof. unfold decimal_value. by rewrite foldl_app. Qed.

Lemma isdigit_of_digit n : 0 <= n -> isdigit (48 + n mod 10) = true.
Proof.
  intros Hn. pose proof (Z.mod_pos_bound n 10 ltac:(lia)). unfold isdigit. lia.
Qed.

Lemma dec_digits_spec fuel n acc :
  (0 < fuel)%nat -> 0 <= n < 2 ^ Z.of_nat fuel ->
  exists ds, dec_digits fuel n acc = ds ++ acc /\ ds <> [] /\
             digits ds /\ decimal_value ds = n /\
             (length ds <= fuel)%nat.
Proof.
  revert n acc. induction fuel as [|f IH]; intros n acc Hf Hn; [lia|].
  simpl. destruct (Z.ltb_spec n 10) as [Hlt|Hge].
  - exists [48 + n mod 10]. split_and!.
    + done.
    + done.
    + repeat constructor. apply isdigit_of_digit. lia.
    + unfold decimal_value. simpl. rewrite Z.mod_small by lia. lia.
    + simpl. lia.
  - assert (0 <= n / 10 < 2 ^ Z.of_nat f) as Hq.
    { split; [apply Z.div_pos; lia|].
      apply Z.div_lt_upper_bound; [lia|].
      rewrite Nat2Z.inj_succ, Z.pow_succ_r in Hn by lia. lia. }
    assert (0 < f)%nat as Hf'.
    { destruct f; [|lia]. simpl in Hq.
      assert (1 <= n / 10) by (apply Z.div_le_lower_bound; lia). lia. }
    destruct (IH (n / 10) ((48 + n mod 10) :: acc) Hf' Hq)
      as (ds & -> & Hne & Hds & Hval & Hlen).
    exists (ds ++ [48 + n mod 10]). split_and!.
    + by rewrite <- app_assoc.
    + by destruct ds.
    + apply Forall_app. split; [done|].
      repeat constructor. apply isdigit_of_digit. lia.
    + rewrite decimal_value_snoc, Hval.
      pose proof (Z.div_mod n 10 ltac:(lia)). lia.
    + rewrite length_app. simpl. lia.
Qed.

Lemma fmt_unsigned_spec n :
  0 <= n ->
  fmt_unsigned n <> [] /\ digits (fmt_unsigned n) /\
  decimal_value (fmt_unsigned n) = n /\
  (length (fmt_unsigned n) <= S (Z.to_nat (Z.log2 n)))%nat.
Proof.
  intros Hn. unfold fmt_unsigned.
  destruct (dec_digits_spec (S (Z.to_nat (Z.log2 n))) n [] ltac:(lia))
    as (ds & -> & Hne & Hds & Hval & Hlen).
  - rewrite Nat2Z.inj_succ, Z2Nat.id by apply Z.log2_nonneg.
    destruct (Z.eq_dec n 0) as [->|]; [done|].
    split; [lia|]. apply Z.log2_spec. lia.
  - by rewrite app_nil_r.
Qed.

(** ** The serial link, end to end *)

Lemma payload_app cs1 cs2 : payload (cs1 ++ cs2) = payload cs1 ++ payload cs2.
Proof. apply filter_app. Qed.

Lemma digit_storable c : isdigit c = true -> storable c /\ read_result c.
Proof. unfold isdigit, storable, read_result, CR, LF. lia. Qed.

Lemma fmt_long_bytes v :
  LONG_MIN <= v <= LONG_MAX ->
  Forall (fun c => storable c /\ read_result c) (fmt_long v) /\
  fmt_long v <> [] /\ (length (fmt_long v) < 79)%nat.
Proof.
  intros Hv. unfold fmt_long, LONG_MIN, LONG_MAX in *.
  assert (forall n, 0 <= n <= 2147483648 ->
            Forall (fun c => storable c /\ read_result c) (fmt_unsigned n) /\
            (length (fmt_unsigned n) <= 32)%nat) as Hu.
  { intros n Hn. destruct (fmt_unsigned_spec n ltac:(lia)) as (_ & Hds & _ & Hlen).
    split.
    - eapply Forall_impl; [exact Hds|]. intros c Hc. by apply digit_storable.
    - destruct (Z.eq_dec n 0) as [->|]; [simpl in *; lia|].
      assert (Z.log2 n < 32) by (apply Z.log2_lt_pow2; lia).
      pose proof (Z.log2_nonneg n). lia. }
  destruct (Z.ltb_spec v 0).
  - destruct (Hu (- v) ltac:(lia)) as [Hs Hl]. split_and!.
    + constructor; [|done]. unfold storable, read_result, CR, LF. lia.
    + done.
    + simpl. lia.
  - destruct (Hu v ltac:(lia)) as [Hs Hl]. split_and!; [done | | lia].
    by destruct (fmt_unsigned_spec v ltac:(lia)).
Qed.

(** [atol] inverts the formatting of a [long]. *)
Lemma atol_fmt_long v rest :
  LONG_MIN <= v <= LONG_MAX -> atol (fmt_long v ++ NUL :: rest) = v.
Proof.
  intros Hv. unfold fmt_long, LONG_MIN, LONG_MAX in *.
  destruct (Z.ltb_spec v 0).
  - destruct (fmt_unsigned_spec (- v) ltac:(lia)) as (_ & Hds & Hval & _).
    unfold atol. simpl. rewrite digits_value_app by done.
    fold (decimal_value (fmt_unsigned (- v))). rewrite Hval.
    rewrite digits_value_stop by done. unfold LONG_MIN. lia.
  - destruct (fmt_unsigned_spec v ltac:(lia)) as (_ & Hds & Hval & _).
    rewrite atol_digits, Hval by done. unfold LONG_MAX. lia.
Qed.

(** The line sent by the Uno for a count [v] completes with a positive
    length, and [atol] of the buffer gives [v] back. *)
Lemma serial_link_round_trip st0 v :
  pending st0 [] -> LONG_MIN <= v <= LONG_MAX ->
  let st := feed st0 (fmt_long v ++ [CR]) in
  fst (readFromSerial st LF) = Z.of_nat (length (fmt_long v)) /\
  0 < fst (readFromSerial st LF) /\
  atol (buf (snd (readFromSerial st LF))) = v.
Proof.
  intros H0 Hv st. destruct (fmt_long_bytes v Hv) as (Hb & Hne & Hlen).
  assert (Forall storable (fmt_long v)) as Hs.
  { eapply Forall_impl; [exact Hb|]. by intros c [? _]. }
  assert (Forall read_result (fmt_long v ++ [CR])) as Hrd.
  { apply Forall_app. split.
    - eapply Forall_impl; [exact Hb|]. by intros c [_ ?].
    - repeat constructor; unfold read_result, CR; lia. }
  assert (Forall (fun c => c <> LF) (fmt_long v ++ [CR])) as Hlf.
  { apply Forall_app. split.
    - eapply Forall_impl; [exact Hs|]. by intros c (_ & _ & ?).
    - by repeat constructor. }
  pose proof (pending_feed _ _ _ H0 Hlf) as Hpend.
  rewrite payload_bytes in Hpend by done. fold st in Hpend.
  rewrite payload_app, payload_storable in Hpend by done.
  change (payload [CR]) with (@nil Z) in Hpend.
  rewrite app_nil_r in Hpend. simpl in Hpend. rewrite take_ge in Hpend by lia.
  rewrite readFromSerial_LF. simpl.
  split_and!.
  - by destruct Hpend as (_ & -> & _).
  - destruct Hpend as (_ & -> & _). destruct (fmt_long v); [done | simpl; lia].
  - rewrite (pending_buf _ _ Hpend Hne). by apply atol_fmt_long.
Qed.

Lemma loop_serial st c q :
  serial_rx st = c :: q ->
  line (loop st) = snd (readFromSerial (line st) c) /\
  serial_rx (loop st) = q /\
  Azimuth_pos (loop st) =
    update_azimuth (fst (readFromSerial (line st) c))
                   (buf (snd (readFromSerial (line st) c))) (Azimuth_pos st).
Proof.
  intros Hrx. unfold loop. rewrite Hrx. simpl.
  by destruct (readFromSerial (line st) c) as [n ls].
Qed.

(** [loop] consumes one byte of the receive queue per iteration; before
    the line feed the azimuth is not touched. *)
Lemma loops_feed cs st q :
  serial_rx st = cs ++ q -> Forall (fun c => c <> LF) cs ->
  let st' := foldl step st (replicate (length cs) EvLoop) in
  line st' = feed (line st) cs /\ serial_rx st' = q /\
  Azimuth_pos st' = Azimuth_pos st.
Proof.
  revert st. induction cs as [|c cs IH]; intros st Hrx Hlf; [done|].
  apply Forall_cons in Hlf as [Hc Hlf].
  destruct (loop_serial st c (cs ++ q) Hrx) as (Hl & Hq & Haz).
  rewrite readFromSerial_ret_nonLF in Haz by done.
  destruct (IH (loop st) Hq Hlf) as (IH1 & IH2 & IH3).
  simpl. split_and!; [by rewrite IH1, Hl | done | by rewrite IH3, Haz].
Qed.

(** The position synchronisation: once the ESP8266 has consumed the line
    the Uno sent for the count [v], its [Azimuth_pos] is [v]. *)
Lemma azimuth_follows_sender st v :
  pending (line st) [] -> LONG_MIN <= v <= LONG_MAX ->
  serial_rx st = Uno.loop v ->
  Azimuth_pos (foldl step st (replicate (length (Uno.loop v)) EvLoop)) = v.
Proof.
  intros H0 Hv Hrx. unfold Uno.loop, println in *.
  change [CR; LF] with ([CR] ++ [LF]) in *. rewrite app_assoc in *.
  destruct (fmt_long_bytes v Hv) as (Hb & _).
  assert (Forall (fun c => c <> LF) (fmt_long v ++ [CR])) as Hlf.
  { apply Forall_app. split.
    - eapply Forall_impl; [exact Hb|]. by intros c [(_ & _ & ?) _].
    - by repeat constructor. }
  destruct (loops_feed _ _ _ Hrx Hlf) as (Hl & Hq & _).
  destruct (serial_link_round_trip _ v H0 Hv) as (_ & Hpos & Hval).
  rewrite (length_app _ [LF]), replicate_add, foldl_app. simpl.
  destruct (loop_serial _ _ _ Hq) as (_ & _ & ->). rewrite Hl.
  unfold update_azimuth. destruct (Z.ltb_spec 0 (fst
    (readFromSerial (feed (line st) (fmt_long v ++ [CR])) LF))); [done | lia].
Qed.

(** ** The protocol dispatcher: one client *)

Lemma alter_insert {A} (f : A -> A) (l : list A) (c : nat) (x : A) :
  alter f c (<[c := x]> l) = <[c := f x]> l.
Proof. by rewrite !list_insert_alter, list_alter_alter_eq. Qed.

Lemma slot_lookup t i c :
  slot t i = Some c <-> serverClients t !! i = Some (Some c).
Proof.
  unfold slot. destruct (serverClients t !! i) as [[d|]|]; simpl; split; congruence.
Qed.

Section Dispatcher.

(** The two positions read by the dispatcher. *)
Context (az alt : Z).

(** A spot without a client, or whose client has sent nothing, is left
    alone. *)
Lemma serve_client_idle i t :
  (forall c k, slot t i = Some c -> conns t !! c = Some k -> rx k = []) ->
  serve_client az alt i t = t.
Proof.
  intros H. unfold serve_client. destruct (slot t i) as [c|] eqn:Hs; [|done].
  unfold client_connected, client_available. simpl.
  destruct (conns t !! c) as [k|] eqn:Hk; [|done].
  rewrite (H c k eq_refl Hk). simpl.
  by destruct (established k).
Qed.

(** A spot whose client has sent a byte: the byte is read and the command
    is served on that connection; on [G] the spot is given up. *)
Lemma serve_client_data i t c k b r :
  slot t i = Some c -> conns t !! c = Some k -> rx k = b :: r ->
  serve_client az alt i t =
    {| serverClients := if to_char b =? 71 then <[i := None]> (serverClients t)
                        else serverClients t;
       conns := <[c := served az alt (to_char b) (pop_rx k)]> (conns t);
       unclaimed := unclaimed t |}.
Proof.
  intros Hs Hk Hrx. unfold serve_client. rewrite Hs.
  unfold client_connected, client_available, client_read. simpl.
  rewrite Hk, Hrx. simpl. rewrite orb_true_r.
  unfold serve_command, served, pop_rx. rewrite Hrx. simpl tail.
  generalize (to_char b) as ch. intros ch.
  destruct (Z.eqb_spec ch 81) as [->|H81].
  { unfold client_write, set_conns. simpl. by rewrite alter_insert. }
  destruct (Z.eqb_spec ch 72) as [->|H72].
  { unfold client_write, set_conns. simpl. by rewrite alter_insert. }
  destruct (Z.eqb_spec ch 71) as [->|H71].
  { unfold client_stop, client_drain, client_write, set_clients, set_conns. simpl.
    rewrite !alter_insert. simpl. by rewrite <- !app_assoc. }
  unfold set_conns. done.
Qed.

Lemma serve_client_cases i t :
  serve_client az alt i t = t \/
  exists c k b r,
    slot t i = Some c /\ conns t !! c = Some k /\ rx k = b :: r /\
    serve_client az alt i t =
      {| serverClients := if to_char b =? 71 then <[i := None]> (serverClients t)
                          else serverClients t;
         conns := <[c := served az alt (to_char b) (pop_rx k)]> (conns t);
         unclaimed := unclaimed t |}.
Proof.
  destruct (slot t i) as [c|] eqn:Hs.
  2: { left. apply serve_client_idle. congruence. }
  destruct (conns t !! c) as [k|] eqn:Hk.
  2: { left. apply serve_client_idle. congruence. }
  destruct (rx k) as [|b r] eqn:Hrx.
  { left. apply serve_client_idle. congruence. }
  right. exists c, k, b, r. split_and!; try done. by eapply serve_client_data.
Qed.

(** Serving one spot changes no other spot, can only empty its own, keeps
    the pending queue, and touches no connection but the spot's own. *)
Lemma serve_client_frame i t :
  unclaimed (serve_client az alt i t) = unclaimed t /\
  length (conns (serve_client az alt i t)) = length (conns t) /\
  length (serverClients (serve_client az alt i t)) = length (serverClients t) /\
  (forall j, j <> i ->
     serverClients (serve_client az alt i t) !! j = serverClients t !! j) /\
  (forall j c, serverClients (serve_client az alt i t) !! j = Some (Some c) ->
     serverClients t !! j = Some (Some c)) /\
  (forall c, slot t i <> Some c ->
     conns (serve_client az alt i t) !! c = conns t !! c).
Proof.
  destruct (serve_client_cases i t) as [->|(c & k & b & r & Hs & Hk & Hrx & ->)];
    [done|]. simpl. split_and!.
  - done.
  - by rewrite length_insert.
  - destruct (to_char b =? 71); [by rewrite length_insert | done].
  - intros j Hj. destruct (to_char b =? 71); [|done].
    by rewrite list_lookup_insert_ne.
  - intros j d. destruct (to_char b =? 71); [|done].
    destruct (decide (i = j)) as [->|Hne].
    + intros H. apply list_lookup_insert_Some in H as [(_ & [=] & _)|(? & _)]; done.
    + by rewrite list_lookup_insert_ne.
  - intros d Hd. rewrite list_lookup_insert_ne; [done | congruence].
Qed.

Lemma serve_client_inv i t : tcp_inv t -> tcp_inv (serve_client az alt i t).
Proof.
  intros (Hlen & Hval & Huniq & Hnd & Hq).
  destruct (serve_client_frame i t) as (Hu & Hlc & Hls & _ & Hsub & _).
  unfold tcp_inv. rewrite Hu, Hlc, Hls. split_and!; try done.
  - intros j c Hj. by apply (Hval j), Hsub.
  - intros j1 j2 c H1 H2. apply (Huniq j1 j2 c); by apply Hsub.
Qed.

(** The scan over the spots. *)

Lemma serve_scan_frame n i0 t :
  unclaimed (serve_scan az alt n i0 t) = unclaimed t /\
  (forall j c, serverClients (serve_scan az alt n i0 t) !! j = Some (Some c) ->
     serverClients t !! j = Some (Some c)) /\
  (forall j, (j < i0 \/ i0 + n <= j)%nat ->
     serverClients (serve_scan az alt n i0 t) !! j = serverClients t !! j) /\
  (forall c, (forall j, (i0 <= j < i0 + n)%nat -> slot t j <> Some c) ->
     conns (serve_scan az alt n i0 t) !! c = conns t !! c).
Proof.
  revert i0 t. induction n as [|n IH]; intros i0 t; [done|]. simpl.
  destruct (IH (S i0) (serve_client az alt i0 t)) as (Hu & Hsub & Hout & Hcn).
  destruct (serve_client_frame i0 t) as (Hu1 & _ & _ & Hother & Hsub1 & Hcn1).
  split_and!.
  - by rewrite Hu.
  - intros j c Hj. by apply Hsub1, Hsub.
  - intros j Hj. rewrite Hout by lia. apply Hother. lia.
  - intros c Hc. rewrite Hcn.
    + apply Hcn1, Hc. lia.
    + intros j Hj Hs. apply (Hc j); [lia|].
      apply slot_lookup. apply Hsub1. by apply slot_lookup.
Qed.

Lemma serve_scan_inv n i0 t : tcp_inv t -> tcp_inv (serve_scan az alt n i0 t).
Proof.
  revert i0 t. induction n as [|n IH]; intros i0 t Ht; [done|].
  simpl. by apply IH, serve_client_inv.
Qed.

(** A client that has sent a byte is served once by the scan, whatever
    the other spots hold, provided no other spot holds its connection. *)
Lemma serve_scan_served n i0 t i c k b r :
  (i0 <= i < i0 + n)%nat ->
  (forall j, j <> i -> slot t j <> Some c) ->
  slot t i = Some c -> conns t !! c = Some k -> rx k = b :: r ->
  conns (serve_scan az alt n i0 t) !! c = Some (served az alt (to_char b) (pop_rx k)) /\
  slot (serve_scan az alt n i0 t) i = (if to_char b =? 71 then None else Some c).
Proof.
  revert i0 t. induction n as [|n IH]; intros i0 t Hi Hoth Hs Hk Hrx; [lia|].
  simpl. destruct (decide (i0 = i)) as [->|Hne].
  - destruct (serve_scan_frame n (S i) (serve_client az alt i t))
      as (_ & _ & Hout & Hcn).
    pose proof (serve_client_frame i t) as (_ & _ & _ & _ & Hsub & _).
    split.
    + rewrite Hcn.
      * rewrite (serve_client_data _ _ _ _ _ _ Hs Hk Hrx). simpl.
        apply list_lookup_insert_eq. by eapply lookup_lt_Some.
      * intros j Hj Hsj. apply (Hoth j); [lia|].
        apply slot_lookup, Hsub. by apply slot_lookup.
    + unfold slot at 1. rewrite Hout by lia.
      rewrite (serve_client_data _ _ _ _ _ _ Hs Hk Hrx). simpl.
      apply slot_lookup in Hs. pose proof (lookup_lt_Some _ _ _ Hs).
      destruct (to_char b =? 71); [by rewrite list_lookup_insert_eq | by rewrite Hs].
  - pose proof (serve_client_frame i0 t) as (_ & _ & _ & Hother & Hsub & Hcn).
    apply IH.
    + lia.
    + intros j Hj Hsj. apply (Hoth j Hj). apply slot_lookup, Hsub. by apply slot_lookup.
    + apply slot_lookup. rewrite Hother by done. by apply slot_lookup.
    + rewrite Hcn; [done|]. apply Hoth. done.
    + done.
Qed.

End Dispatcher.

(** ** The connection pool: accepting a pending connection *)

Lemma accept_scan_spec n i t :
  (exists i', (i <= i' < i + n)%nat /\ spot_free t i' = true /\
     (forall j, (i <= j < i')%nat -> spot_free t j = false) /\
     accept_scan n i t = (i', claim_spot i' t)) \/
  ((forall j, (i <= j < i + n)%nat -> spot_free t j = false) /\
   accept_scan n i t = ((i + n)%nat, t)).
Proof.
  revert i. induction n as [|n IH]; intros i.
  - right. split; [lia|]. simpl. f_equal. lia.
  - simpl. destruct (spot_free t i) eqn:Hfree.
    + left. exists i. split_and!; [lia | lia | done | lia |].
      unfold claim_spot.
      replace (if client_bool (slot t i) then client_stop (slot t i) t else t)
        with (client_stop (slot t i) t) by (by destruct (slot t i)).
      by destruct (server_available (client_stop (slot t i) t)).
    + destruct (IH (S i)) as [(i' & Hi' & Hf & Hlt & Heq)|(Hall & Heq)].
      * left. exists i'. split_and!; [lia | lia | done | | done].
        intros j Hj. destruct (decide (j = i)) as [->|]; [done | apply Hlt; lia].
      * right. split.
        -- intros j Hj. destruct (decide (j = i)) as [->|]; [done | apply Hall; lia].
        -- rewrite Heq. f_equal. lia.
Qed.

Lemma claim_spot_pending i t c q :
  unclaimed t = c :: q ->
  claim_spot i t =
    {| serverClients := <[i := Some c]> (serverClients t);
       conns := conns (client_stop (slot t i) t);
       unclaimed := q |}.
Proof.
  intros Hu. unfold claim_spot, server_available.
  replace (unclaimed (client_stop (slot t i) t)) with (c :: q)
    by (by destruct (slot t i)).
  unfold set_clients, set_unclaimed. simpl. by destruct (slot t i).
Qed.

Lemma accept_no_pending t : unclaimed t = [] -> accept_new_client t = t.
Proof. intros H. unfold accept_new_client, server_hasClient. by rewrite H. Qed.

(** The pending connection goes to the first free or disconnected spot. *)
Lemma accept_first_free t i c q :
  unclaimed t = c :: q -> (i < MAX_SRV_CLIENTS)%nat ->
  spot_free t i = true -> (forall j, (j < i)%nat -> spot_free t j = false) ->
  accept_new_client t = claim_spot i t.
Proof.
  intros Hu Hi Hfree Hbefore. unfold accept_new_client, server_hasClient. rewrite Hu.
  destruct (accept_scan_spec MAX_SRV_CLIENTS 0 t)
    as [(i' & Hi' & Hf & Hlt & ->)|(Hall & _)].
  - assert (i' = i) as ->.
    { destruct (Nat.lt_trichotomy i' i) as [H|[H|H]]; [|done|].
      - specialize (Hbefore i' H). congruence.
      - specialize (Hlt i ltac:(lia)). congruence. }
    destruct (Nat.eqb_spec i MAX_SRV_CLIENTS); [lia | done].
  - specialize (Hall i ltac:(lia)). congruence.
Qed.

(** With no spot free, the pending connection is taken and stopped. *)
Lemma accept_none_free t c q :
  unclaimed t = c :: q ->
  (forall j, (j < MAX_SRV_CLIENTS)%nat -> spot_free t j = false) ->
  accept_new_client t = client_stop (Some c) (set_unclaimed q t).
Proof.
  intros Hu Hall. unfold accept_new_client, server_hasClient. rewrite Hu.
  destruct (accept_scan_spec MAX_SRV_CLIENTS 0 t)
    as [(i' & Hi' & Hf & _)|(_ & ->)].
  - specialize (Hall i' ltac:(lia)). congruence.
  - simpl. unfold server_available. by rewrite Hu.
Qed.

Lemma accept_cases t :
  (unclaimed t = [] /\ accept_new_client t = t) \/
  (exists c q i, unclaimed t = c :: q /\ (i < MAX_SRV_CLIENTS)%nat /\
     spot_free t i = true /\ (forall j, (j < i)%nat -> spot_free t j = false) /\
     accept_new_client t = claim_spot i t) \/
  (exists c q, unclaimed t = c :: q /\
     (forall j, (j < MAX_SRV_CLIENTS)%nat -> spot_free t j = false) /\
     accept_new_client t = client_stop (Some c) (set_unclaimed q t)).
Proof.
  destruct (unclaimed t) as [|c q] eqn:Hu.
  { left. split; [done | by apply accept_no_pending]. }
  right. destruct (accept_scan_spec MAX_SRV_CLIENTS 0 t)
    as [(i & Hi & Hf & Hlt & _)|(Hall & _)].
  - left. exists c, q, i. split_and!; try done; try lia.
    + intros j Hj. apply Hlt. lia.
    + eapply accept_first_free; eauto; try lia. intros j Hj. apply Hlt. lia.
  - right. exists c, q. split_and!; try done.
    + intros j Hj. apply Hall. lia.
    + eapply accept_none_free; eauto. intros j Hj. apply Hall. lia.
Qed.

Lemma conns_client_stop h t c :
  h <> Some c -> conns (client_stop h t) !! c = conns t !! c.
Proof.
  intros Hh. destruct h as [d|]; [|done]. simpl.
  rewrite list_lookup_alter_ne; [done | congruence].
Qed.

Lemma conns_client_stop_self t c :
  conns (client_stop (Some c) t) !! c = close_conn <$> conns t !! c.
Proof. simpl. apply list_lookup_alter_eq. Qed.

Lemma length_conns_client_stop h t :
  length (conns (client_stop h t)) = length (conns t).
Proof. destruct h; [apply length_alter | done]. Qed.

Lemma accept_inv t : tcp_inv t -> tcp_inv (accept_new_client t).
Proof.
  intros (Hlen & Hval & Huniq & Hnd & Hq).
  destruct (accept_cases t) as [[_ ->]|[(c & q & i & Hu & Hi & _ & _ & ->)|(c & q & Hu & _ & ->)]].
  - done.
  - rewrite (claim_spot_pending _ _ _ _ Hu). unfold tcp_inv. simpl.
    rewrite length_insert, length_conns_client_stop, Hu in *.
    apply NoDup_cons in Hnd as [Hc Hnd].
    split_and!; try done.
    + intros j d Hj. apply list_lookup_insert_Some in Hj as [(-> & [= <-] & _)|(Hne & Hj)].
      * split; [apply Hq; left | done].
      * destruct (Hval _ _ Hj) as [? Hd]. split; [done|].
        apply not_elem_of_cons in Hd. tauto.
    + intros j1 j2 d H1 H2.
      apply list_lookup_insert_Some in H1 as [(<- & Hd1 & _)|(Hne1 & H1)];
      apply list_lookup_insert_Some in H2 as [(<- & Hd2 & _)|(Hne2 & H2)]; try done.
      * injection Hd1 as <-.
        destruct (Hval _ _ H2) as [_ Hd]. exfalso. apply Hd. by left.
      * injection Hd2 as <-.
        destruct (Hval _ _ H1) as [_ Hd]. exfalso. apply Hd. by left.
      * by apply (Huniq j1 j2 d).
    + intros d Hd. apply Hq. by right.
  - unfold tcp_inv. simpl. rewrite length_alter, Hu in *.
    apply NoDup_cons in Hnd as [Hc Hnd].
    split_and!; try done.
    + intros j d Hj. destruct (Hval _ _ Hj) as [? Hd]. split; [done|].
      apply not_elem_of_cons in Hd. tauto.
    + intros d Hd. apply Hq. by right.
Qed.

Lemma connected_of_data t d k b r :
  conns t !! d = Some k -> rx k = b :: r -> client_connected t (Some d) = true.
Proof.
  intros Hk Hrx. unfold client_connected, client_available. simpl.
  rewrite Hk, Hrx. simpl. apply orb_true_r.
Qed.

Lemma spot_connected_not_free t i d :
  slot t i = Some d -> client_connected t (Some d) = true -> spot_free t i = false.
Proof. intros Hs Hc. unfold spot_free. by rewrite Hs, Hc. Qed.

(** Accepting or rejecting a pending connection leaves every connected
    client in its spot and its connection as it was. *)
Lemma accept_keeps_connected t i d :
  tcp_inv t -> slot t i = Some d -> client_connected t (Some d) = true ->
  slot (accept_new_client t) i = Some d /\
  conns (accept_new_client t) !! d = conns t !! d.
Proof.
  intros (Hlen & Hval & Huniq & Hnd & Hq) Hs Hc.
  pose proof (spot_connected_not_free _ _ _ Hs Hc) as Hnf.
  destruct (accept_cases t)
    as [[_ ->]|[(c & q & i0 & Hu & Hi0 & Hf & _ & ->)|(c & q & Hu & _ & ->)]].
  - done.
  - rewrite (claim_spot_pending _ _ _ _ Hu).
    assert (i0 <> i) as Hne by congruence.
    split.
    + apply slot_lookup. simpl. rewrite list_lookup_insert_ne by done.
      by apply slot_lookup.
    + simpl. apply conns_client_stop. intros Hs0.
      apply Hne. apply (Huniq i0 i d); by apply slot_lookup.
  - split; [done|]. rewrite conns_client_stop; [done|]. intros [= ->].
    apply slot_lookup in Hs. destruct (Hval _ _ Hs) as [_ Hd].
    apply Hd. rewrite Hu. by left.
Qed.

(** One call of [attendTcpRequests] serves the oldest unread byte of every
    client that has sent one. *)
Lemma attend_serves az alt t i d k b r :
  tcp_inv t -> slot t i = Some d -> conns t !! d = Some k -> rx k = b :: r ->
  conns (attendTcpRequests az alt t) !! d = Some (served az alt (to_char b) (pop_rx k)) /\
  slot (attendTcpRequests az alt t) i = (if to_char b =? 71 then None else Some d).
Proof.
  intros Hinv Hs Hk Hrx.
  pose proof (connected_of_data _ _ _ _ _ Hk Hrx) as Hc.
  destruct (accept_keeps_connected _ _ _ Hinv Hs Hc) as [Hs' Hk'].
  pose proof (accept_inv _ Hinv) as (_ & _ & Huniq & _).
  unfold attendTcpRequests. eapply serve_scan_served; eauto.
  - apply slot_lookup, lookup_lt_Some in Hs.
    destruct Hinv as (Hlen & _). rewrite Hlen in Hs. lia.
  - intros j Hj Hsj. apply Hj. apply (Huniq j i d); by apply slot_lookup.
  - by rewrite Hk'.
Qed.

Lemma attend_inv az alt t : tcp_inv t -> tcp_inv (attendTcpRequests az alt t).
Proof. intros H. by apply serve_scan_inv, accept_inv. Qed.

(** ** Runs of the node *)

Lemma tcp_inv_init : tcp_inv tcp_init.
Proof.
  unfold tcp_inv, tcp_init. simpl. split_and!; try done.
  - intros [|[|[|i]]] c; done.
  - intros [|[|[|i]]] j c; done.
  - constructor.
  - intros c Hc. by apply elem_of_nil in Hc.
Qed.

Lemma tcp_event_inv e t : tcp_inv t -> tcp_inv (tcp_event e t).
Proof.
  intros (Hlen & Hval & Huniq & Hnd & Hq). destruct e; try done; unfold tcp_inv; simpl.
  - rewrite length_app. simpl. split_and!; try done.
    + intros i c Hi. destruct (Hval _ _ Hi) as [Hc Hn]. split; [lia|].
      rewrite elem_of_app, list_elem_of_singleton. intros [?|?]; [done | lia].
    + apply NoDup_app. split_and!; [done | | apply NoDup_singleton].
      intros x Hx. apply Hq in Hx. rewrite list_elem_of_singleton. lia.
    + intros c. rewrite elem_of_app, list_elem_of_singleton.
      intros [Hc| ->]; [apply Hq in Hc|]; lia.
  - rewrite length_alter. done.
  - rewrite length_alter. done.
Qed.

Lemma tcp_loop st :
  tcp (loop st) =
    attendTcpRequests (Azimuth_pos (loop st)) (AltitudeEncoder st) (tcp st).
Proof. by open_loop st. Qed.

Lemma Altitude_pos_loop st : Altitude_pos (loop st) = AltitudeEncoder st.
Proof. by open_loop st. Qed.

Lemma calls_loop st : calls (loop st) = calls st.
Proof. by open_loop st. Qed.

Lemma step_inv st e : tcp_inv (tcp st) -> tcp_inv (tcp (step st e)).
Proof.
  intros H. destruct e; simpl; try done.
  - by apply (tcp_event_inv EvConnect).
  - by apply (tcp_event_inv (EvData c bs)).
  - by apply (tcp_event_inv (EvPeerClose c)).
  - rewrite tcp_loop. by apply attend_inv.
Qed.

Lemma run_snoc env es e : run env (es ++ [e]) = step (run env es) e.
Proof. unfold run. by rewrite foldl_app. Qed.

Lemma run_inv env es : tcp_inv (tcp (run env es)).
Proof.
  induction es as [|e es IH] using rev_ind.
  - apply tcp_inv_init.
  - rewrite run_snoc. by apply step_inv.
Qed.


(** [setup] runs once: nothing after it makes a call on the WiFi library. *)
Lemma calls_run env es : calls (run env es) = setup env.
Proof.
  induction es as [|e es IH] using rev_ind; [done|].
  rewrite run_snoc. destruct e; simpl; try done. by rewrite calls_loop.
Qed.

(** Without serial data and encoder movement the positions stay at zero. *)
Lemma quiet_run env es :
  Forall quiet es ->
  line (run env es) = line_init /\ serial_rx (run env es) = [] /\
  AltitudeEncoder (run env es) = 0 /\
  Azimuth_pos (run env es) = 0 /\ Altitude_pos (run env es) = 0.
Proof.
  induction es as [|e es IH] using rev_ind; intros Hq; [done|].
  apply Forall_app in Hq as [Hq He]. apply Forall_inv in He.
  destruct (IH Hq) as (Hl & Hrx & Henc & Haz & Halt).
  rewrite run_snoc. destruct e; simpl in *; try done.
  unfold loop. rewrite Hrx, Hl, Henc, Haz. done.
Qed.

(** ** Properties of the protocol dispatcher *)

(** C4, evaluated: for the position pair (0, 0) the body is the five bytes
    [0 TAB 0 TAB LF]; on [G] the sketch writes the header, then the length
    as ONE byte of value 5, not as the decimal text [5], then the blank
    line and the body followed by CR LF; the rest of the request is
    drained, the connection is stopped and its spot is emptied. *)
Theorem C4_content_length_is_one_raw_byte :
  let st := run env_no_network [EvConnect; EvLoop; EvData 0 [71; 69; 84]] in
  Q_response (Azimuth_pos st) (Altitude_pos st) = [48; TAB; 48; TAB; LF] /\
  conns (tcp (loop st)) !! 0%nat =
    Some {| established := false; rx := [];
            tx := http_header ++ [5] ++ [CR; LF; CR; LF]
                    ++ [48; TAB; 48; TAB; LF] ++ [CR; LF];
            stopped := true |} /\
  slot (tcp (loop st)) 0 = None /\
  fmt_unsigned 5 = [53] /\ [5] <> fmt_unsigned 5.
Proof. intros st. split_and!; try reflexivity. vm_compute. discriminate. Qed.

(** What [G] does for every position pair and every client that sent it. *)
Lemma G_command_served az alt t i d k r :
  tcp_inv t -> slot t i = Some d -> conns t !! d = Some k -> rx k = 71 :: r ->
  conns (attendTcpRequests az alt t) !! d =
    Some {| established := false; rx := [];
            tx := tx k ++ http_header
                       ++ [Z.of_nat (length (Q_response az alt)) mod 256]
                       ++ [CR; LF; CR; LF] ++ println (Q_response az alt);
            stopped := true |} /\
  slot (attendTcpRequests az alt t) i = None.
Proof.
  intros Hinv Hs Hk Hrx.
  by destruct (attend_serves az alt _ _ _ _ _ _ Hinv Hs Hk Hrx) as [-> ->].
Qed.

(** C5, as the code has it: before any serial data and any encoder
    movement both positions are zero, and a client that sends [Q] is
    answered with [0 TAB 0 TAB LF] followed by the CR LF that [println]
    appends. *)
Theorem C5_initial_query_response (env : wifi_env) (es : list event)
    (i c : nat) (k : conn) (r : list Z) :
  Forall quiet es ->
  slot (tcp (run env es)) i = Some c ->
  conns (tcp (run env es)) !! c = Some k ->
  rx k = 81 :: r ->
  Azimuth_pos (run env es) = 0 /\ Altitude_pos (run env es) = 0 /\
  conns (tcp (loop (run env es))) !! c =
    Some {| established := established k; rx := r;
            tx := tx k ++ [48; TAB; 48; TAB; LF; CR; LF];
            stopped := stopped k |}.
Proof.
  intros Hq Hs Hk Hrx.
  destruct (quiet_run env es Hq) as (_ & _ & Henc & Haz & Halt).
  assert (Forall quiet (es ++ [EvLoop])) as Hq'.
  { apply Forall_app. split; [done | by constructor]. }
  destruct (quiet_run env _ Hq') as (_ & _ & _ & Haz' & _).
  rewrite run_snoc in Haz'. simpl in Haz'.
  split_and!; [done | done |].
  rewrite tcp_loop, Haz', Henc.
  destruct (attend_serves 0 0 _ _ _ _ _ _ (run_inv env es) Hs Hk Hrx) as [-> _].
  unfold pop_rx. by rewrite Hrx.
Qed.

Lemma C5_initial_query_response_witness :
  let es := [EvConnect; EvLoop; EvData 0 [81]] in
  conns (tcp (loop (run env_no_network es))) !! 0%nat =
    Some {| established := true; rx := [];
            tx := [48; TAB; 48; TAB; LF; CR; LF]; stopped := false |}.
Proof.
  intros es.
  assert (Forall quiet es) as Hq by (repeat constructor).
  exact (proj2 (proj2 (C5_initial_query_response env_no_network es 0 0
           {| established := true; rx := [81]; tx := []; stopped := false |} []
           Hq eq_refl eq_refl eq_refl))).
Defined.

(** At process start a client connects and sends [Q]: seven bytes are
    written to it, the last two being the CR LF of [println]. *)
Lemma C5_counterexample :
  let st := run env_no_network [EvConnect; EvLoop; EvData 0 [81]; EvLoop] in
  tx <$> conns (tcp st) !! 0%nat = Some [48; TAB; 48; TAB; LF; CR; LF] /\
  tx <$> conns (tcp st) !! 0%nat <> Some [48; TAB; 48; TAB; LF].
Proof. intros st. split; [reflexivity | vm_compute; discriminate]. Qed.

(** ** Properties of the connection pool *)

Lemma client_connected_conns t t' h :
  (forall d, h = Some d -> conns t' !! d = conns t !! d) ->
  client_connected t' h = client_connected t h.
Proof.
  intros H. destruct h as [d|]; [|done].
  unfold client_connected, client_available. simpl. by rewrite (H d eq_refl).
Qed.

Lemma connected_slot t i :
  client_connected t (slot t i) = true -> exists d, slot t i = Some d.
Proof. destruct (slot t i) as [d|]; [by exists d | done]. Qed.

(** C7: when every spot holds a connected client and a connection is
    pending, [attendTcpRequests] takes the pending connection off the
    server's queue and stops it at once; the spots and the connections of
    the existing clients are left as they were, every spot is still
    connected, and each client that has sent a command byte is served in
    the same call. *)
Theorem C7_pool_full_rejects_new_client (t : tcp_state) (az alt : Z)
    (c : nat) (q : list nat) :
  tcp_inv t ->
  unclaimed t = c :: q ->
  (forall i, (i < MAX_SRV_CLIENTS)%nat -> client_connected t (slot t i) = true) ->
  let t' := accept_new_client t in
  serverClients t' = serverClients t /\
  unclaimed t' = q /\ (c ∉ q) /\
  (exists k, conns t !! c = Some k /\ conns t' !! c = Some (close_conn k)) /\
  (forall d, d <> c -> conns t' !! d = conns t !! d) /\
  (forall i, (i < MAX_SRV_CLIENTS)%nat -> client_connected t' (slot t' i) = true) /\
  (forall i d k b r,
     slot t i = Some d -> conns t !! d = Some k -> rx k = b :: r ->
     conns (attendTcpRequests az alt t) !! d
       = Some (served az alt (to_char b) (pop_rx k))).
Proof.
  intros Hinv Hu Hfull t'.
  assert (forall j, (j < MAX_SRV_CLIENTS)%nat -> spot_free t j = false) as Hnf.
  { intros j Hj. specialize (Hfull j Hj).
    destruct (connected_slot _ _ Hfull) as [d Hd].
    rewrite Hd in Hfull. by eapply spot_connected_not_free. }
  subst t'. rewrite (accept_none_free _ _ _ Hu Hnf).
  pose proof Hinv as Hinv0.
  destruct Hinv as (Hlen & Hval & Huniq & Hnd & Hq).
  rewrite Hu in Hnd. apply NoDup_cons in Hnd as [Hc Hnd].
  assert (forall d, d <> c ->
     conns (client_stop (Some c) (set_unclaimed q t)) !! d = conns t !! d) as Hother.
  { intros d Hd. rewrite conns_client_stop; [done | congruence]. }
  split_and!; try done.
  - assert (c < length (conns t))%nat as Hlt by (apply Hq; rewrite Hu; by left).
    apply lookup_lt_is_Some in Hlt as [k Hk]. exists k. split; [done|].
    rewrite conns_client_stop_self. simpl. by rewrite Hk.
  - intros i Hi. specialize (Hfull i Hi).
    change (slot (client_stop (Some c) (set_unclaimed q t)) i) with (slot t i).
    rewrite <- Hfull. apply client_connected_conns.
    intros d Hd. apply Hother. intros ->.
    apply slot_lookup in Hd. destruct (Hval _ _ Hd) as [_ Hn].
    apply Hn. rewrite Hu. by left.
  - intros i d k b r Hs Hk Hrx.
    by destruct (attend_serves az alt _ _ _ _ _ _ Hinv0 Hs Hk Hrx) as [-> _].
Qed.

Lemma C7_pool_full_rejects_new_client_witness :
  let t := tcp (run env_no_network
                  [EvConnect; EvConnect; EvConnect; EvLoop; EvLoop; EvLoop;
                   EvConnect; EvData 1 [72]]) in
  serverClients (accept_new_client t) = [Some 0; Some 1; Some 2]%nat /\
  unclaimed (accept_new_client t) = [] /\
  stopped <$> conns (accept_new_client t) !! 3%nat = Some true /\
  tx <$> conns (attendTcpRequests 0 0 t) !! 1%nat = Some (println H_response).
Proof.
  intros t.
  assert (tcp_inv t) as Hinv by apply run_inv.
  assert (forall i, (i < MAX_SRV_CLIENTS)%nat -> client_connected t (slot t i) = true)
    as Hfull.
  { intros [|[|[|i]]] Hi; try reflexivity. unfold MAX_SRV_CLIENTS in Hi. lia. }
  destruct (C7_pool_full_rejects_new_client t 0 0 3%nat [] Hinv eq_refl Hfull)
    as (Hs & Hu & _ & (k & Hk & Hk') & _ & _ & Hserve).
  split_and!.
  - exact Hs.
  - exact Hu.
  - rewrite Hk'. reflexivity.
  - rewrite (Hserve 1%nat 1%nat
               {| established := true; rx := [72]; tx := []; stopped := false |}
               72 [] eq_refl eq_refl eq_refl).
    reflexivity.
Defined.




(** ** The WiFi bootstrap *)

(** C9: when the join has not succeeded after the 5 s delay, [setup] ends
    with the access point configured at 1.2.3.4, gateway 1.2.3.1, subnet
    255.255.255.0; the calls of the whole run are those of the single
    [setup], with one join attempt and none after the switch to
    access-point mode. *)
Theorem C9_fallback_to_self_hosting (env : wifi_env) (es : list event) :
  status_after_begin env <> WL_CONNECTED ->
  calls (run env es) = setup env /\
  setup env =
    [Serial_begin 115200; delay 2000;
     WiFi_mode WIFI_STA;
     WiFi_begin External_WiFi_SSID External_WiFi_Password;
     delay 5000;
     Serial_println "Failed to connect to WiFi, starting AP";
     WiFi_mode WIFI_AP;
     WiFi_softAPConfig (IP 1 2 3 4) (IP 1 2 3 1) (IP 255 255 255 0);
     WiFi_softAP WiFi_Access_Point_Name WiFi_Access_Point_Passw;
     Serial_println_ip (softAPIP env);
     server_begin; server_setNoDelay true] /\
  network_identity (calls (run env es)) =
    Some (SelfHosted (IP 1 2 3 4) (IP 1 2 3 1) (IP 255 255 255 0)) /\
  join_attempts (calls (run env es)) = 1%nat /\
  Forall (fun c => is_join c = false) (after_fallback (calls (run env es))).
Proof.
  intros Hst. rewrite calls_run.
  assert (wl_status_eqb (status_after_begin env) WL_CONNECTED = false) as Heq.
  { by destruct (status_after_begin env). }
  unfold setup. rewrite Heq. simpl.
  split_and!; try done. repeat constructor.
Qed.

Lemma C9_fallback_to_self_hosting_witness :
  network_identity (calls (run env_no_network [EvLoop; EvConnect; EvLoop])) =
    Some (SelfHosted (IP 1 2 3 4) (IP 1 2 3 1) (IP 255 255 255 0)) /\
  join_attempts (calls (run env_no_network [EvLoop; EvConnect; EvLoop])) = 1%nat.
Proof.
  assert (status_after_begin env_no_network <> WL_CONNECTED) as H by discriminate.
  destruct (C9_fallback_to_self_hosting env_no_network [EvLoop; EvConnect; EvLoop] H)
    as (_ & _ & Hid & Hj & _).
  split; [exact Hid | exact Hj].
Defined.

(** * Further properties *)

(** ** The parser on arbitrary input *)

(** X1: the state of the parser depends only on the bytes that are not
    skipped: empty reads, NUL and CR may be removed from any input, or
    added to it, without changing the buffer or the position. *)
Theorem parser_skips_idle_reads (st : line_state) (cs : list Z) :
  feed st cs = feed st (filter consumed cs).
Proof.
  revert st. induction cs as [|c cs IH]; intros st; [done|].
  rewrite filter_cons. destruct (decide (consumed c)) as [Hc|Hc]; simpl.
  - apply IH.
  - rewrite <- IH. f_equal. unfold consumed in Hc.
    destruct (Z.le_gt_cases c 0) as [H|H].
    + by rewrite readFromSerial_not_positive.
    + destruct (Z.eq_dec c CR) as [->|]; [done | tauto].
Qed.

Lemma pending_step st l c :
  pending st l -> Forall (fun b => b <> NUL) l -> read_result c ->
  exists l', pending (snd (readFromSerial st c)) l' /\ Forall (fun b => b <> NUL) l'.
Proof.
  intros Hst Hl Hc.
  destruct (Z.eq_dec c LF) as [->|Hlf].
  { exists []. split; [apply pending_after_LF, Hst | constructor]. }
  destruct (decide (storable c)) as [Hs|Hs].
  - destruct (decide (length l < 79)%nat) as [Hlt|Hge].
    + exists (l ++ [to_char c]). split; [by apply pending_store|].
      apply Forall_app. split; [done|]. repeat constructor.
      rewrite to_char_byte; unfold storable, read_result, NUL in *; lia.
    + exists l. rewrite readFromSerial_full; [done | | done].
      pose proof (pending_length _ _ Hst). destruct Hst as (_ & -> & _).
      unfold BUFFER_SIZE. lia.
  - exists l. by rewrite readFromSerial_ignored.
Qed.

Lemma feed_pending cs :
  Forall read_result cs ->
  exists l, pending (feed line_init cs) l /\ Forall (fun b => b <> NUL) l.
Proof.
  induction cs as [|c cs IH] using rev_ind; intros Hcs.
  - exists []. split; [apply pending_init | constructor].
  - apply Forall_app in Hcs as [Hcs Hc]. apply Forall_inv in Hc.
    destruct (IH Hcs) as (l & Hl & Hnz).
    rewrite <- feed_app. simpl. by eapply pending_step.
Qed.

Lemma strlen_app l rest :
  Forall (fun b => b <> NUL) l ->
  strlen (l ++ NUL :: rest) = Z.of_nat (length l).
Proof.
  induction 1 as [|b l Hb _ IH]; [done|].
  simpl strlen. destruct (Z.eqb_spec b NUL); [done|].
  rewrite IH. simpl length. lia.
Qed.

(** X2: whatever bytes arrive, the buffer is a C string: its last cell is
    always NUL, so [atol(buf)] never reads past the array; while a line is
    being accumulated [strlen(buf)] is [pos]; and a positive result of
    [readFromSerial] is the [strlen] of the buffer handed to [atol]. *)
Theorem buffer_is_a_c_string (cs : list Z) (c : Z) :
  Forall read_result cs ->
  let st := feed line_init cs in
  buf st !! 79%nat = Some NUL /\
  (0 < pos st -> strlen (buf st) = pos st) /\
  (0 < fst (readFromSerial st c) ->
     c = LF /\
     fst (readFromSerial st c) = strlen (buf (snd (readFromSerial st c)))).
Proof.
  intros Hcs st. destruct (feed_pending cs Hcs) as (l & Hl & Hnz). fold st in Hl.
  assert (0 < pos st -> strlen (buf st) = pos st) as Hstr.
  { intros Hp. destruct Hl as (Hinv & Hpos & Htake & Hnul).
    assert (l <> []) as Hne by (intros ->; simpl in Hpos; lia).
    rewrite (pending_buf st l) by done. rewrite strlen_app by done. lia. }
  split_and!.
  - by destruct Hl as ((_ & _ & ?) & _).
  - done.
  - intros Hr. destruct (Z.eq_dec c LF) as [->|Hne].
    + split; [done|]. rewrite readFromSerial_LF in *. simpl in *. by rewrite Hstr.
    + rewrite readFromSerial_ret_nonLF in Hr by done. lia.
Qed.

Lemma buffer_is_a_c_string_witness :
  let st := feed line_init [52; 50; CR] in
  strlen (buf st) = 2 /\
  fst (readFromSerial st LF) = strlen (buf (snd (readFromSerial st LF))).
Proof.
  intros st.
  assert (Forall read_result [52; 50; CR]) as H.
  { unfold read_result. repeat constructor; vm_compute; discriminate. }
  destruct (buffer_is_a_c_string [52; 50; CR] LF H) as (_ & H1 & H2).
  split.
  - apply H1. reflexivity.
  - apply H2. reflexivity.
Defined.

(** X3: the line the Uno sends for any count of the range of [long],
    negative counts included, completes with the number of characters
    sent (sign and digits) as its length, which is positive, and [atol] of
    the buffer gives the count back. *)
Theorem uno_line_round_trip (st0 : line_state) (v : Z) :
  pending st0 [] -> in_long v ->
  let st := feed st0 (fmt_long v ++ [CR]) in
  fst (readFromSerial st LF) = Z.of_nat (length (fmt_long v)) /\
  0 < fst (readFromSerial st LF) /\
  atol (buf (snd (readFromSerial st LF))) = v.
Proof. intros H0 Hv. by apply serial_link_round_trip. Qed.

Lemma uno_line_round_trip_witness :
  let st := feed line_init (fmt_long (-1234) ++ [CR]) in
  fst (readFromSerial st LF) = 5 /\
  atol (buf (snd (readFromSerial st LF))) = -1234.
Proof.
  intros st.
  assert (in_long (-1234)) as Hv by (unfold in_long, LONG_MIN, LONG_MAX; lia).
  destruct (uno_line_round_trip line_init (-1234) pending_init Hv) as (H1 & _ & H2).
  split; [exact H1 | exact H2].
Defined.

(** ** The azimuth follows the Uno *)

Lemma loops_add a b st : loops (a + b) st = loops b (loops a st).
Proof. unfold loops. by rewrite replicate_add, foldl_app. Qed.

Lemma loop_idle st :
  serial_rx st = [] ->
  line (loop st) = line st /\ serial_rx (loop st) = [] /\
  Azimuth_pos (loop st) = Azimuth_pos st.
Proof.
  intros Hrx. unfold loop. rewrite Hrx. done.
Qed.

Lemma loops_idle n st :
  serial_rx st = [] ->
  line (loops n st) = line st /\ serial_rx (loops n st) = [] /\
  Azimuth_pos (loops n st) = Azimuth_pos st.
Proof.
  revert st. induction n as [|n IH]; intros st Hrx; [done|].
  destruct (loop_idle st Hrx) as (Hl & Hq & Haz).
  destruct (IH (loop st) Hq) as (IH1 & IH2 & IH3).
  change (loops (S n) st) with (loops n (loop st)).
  by rewrite IH1, IH2, IH3, Hl, Haz.
Qed.

(** One sample: after as many iterations as the line has bytes, the
    azimuth is the count sent, the parser is between two lines and the
    rest of the queue is untouched. *)
Lemma loops_one_sample st v q :
  pending (line st) [] -> in_long v ->
  serial_rx st = Uno.loop v ++ q ->
  Azimuth_pos (loops (length (Uno.loop v)) st) = v /\
  pending (line (loops (length (Uno.loop v)) st)) [] /\
  serial_rx (loops (length (Uno.loop v)) st) = q.
Proof.
  intros H0 Hv Hrx. unfold Uno.loop, println in *.
  change [CR; LF] with ([CR] ++ [LF]) in *. rewrite app_assoc in *.
  rewrite <- app_assoc in Hrx.
  destruct (fmt_long_bytes v Hv) as (Hb & _).
  assert (Forall (fun c => c <> LF) (fmt_long v ++ [CR])) as Hlf.
  { apply Forall_app. split.
    - eapply Forall_impl; [exact Hb|]. by intros c [(_ & _ & ?) _].
    - by repeat constructor. }
  destruct (loops_feed _ _ _ Hrx Hlf) as (Hl & Hq & _).
  destruct (serial_link_round_trip _ v H0 Hv) as (_ & Hpos & Hval).
  rewrite (length_app _ [LF]), loops_add.
  change (loops (length [LF]) ?s) with (loop s).
  destruct (loop_serial _ _ _ Hq) as (Hl' & Hq' & Haz'). unfold loops at 1 2 3.
  rewrite Hl', Hq', Haz', Hl. split_and!; [|apply pending_after_LF|done].
  - unfold update_azimuth. destruct (Z.ltb_spec 0 (fst
      (readFromSerial (feed (line st) (fmt_long v ++ [CR])) LF))); [done | lia].
  - apply line_inv_feed. by destruct H0.
Qed.

Lemma last_default_cons {A} (a v : A) (vs : list A) :
  default a (last (v :: vs)) = default v (last vs).
Proof. rewrite last_cons. by destruct (last vs). Qed.

(** X4: the last sample wins.  When the receive queue holds the lines the
    Uno sent for a sequence of counts, then after at least as many
    iterations of [loop] as there are bytes, [Azimuth_pos] is the last
    count sent (and is unchanged when nothing was sent); further
    iterations with an empty queue do not change it. *)
Theorem azimuth_is_last_sample (st : esp) (counts : list Z) (n : nat) :
  pending (line st) [] -> Forall in_long counts ->
  serial_rx st = uno_output counts ->
  (length (uno_output counts) <= n)%nat ->
  Azimuth_pos (loops n st) = default (Azimuth_pos st) (last counts).
Proof.
  revert st n. induction counts as [|v vs IH]; intros st n H0 Hvs Hrx Hn.
  - by destruct (loops_idle n st Hrx) as (_ & _ & ->).
  - apply Forall_cons in Hvs as [Hv Hvs].
    change (uno_output (v :: vs)) with (Uno.loop v ++ uno_output vs) in *.
    rewrite length_app in Hn.
    destruct (loops_one_sample st v _ H0 Hv Hrx) as (Haz & Hp & Hq).
    replace n with (length (Uno.loop v) + (n - length (Uno.loop v)))%nat by lia.
    rewrite loops_add, (IH _ _ Hp Hvs Hq) by lia.
    by rewrite Haz, last_default_cons.
Qed.

Lemma azimuth_is_last_sample_witness :
  let st := step (run env_no_network []) (EvSerial (uno_output [10200; -7; 42])) in
  Azimuth_pos (loops 20 st) = 42.
Proof.
  intros st.
  assert (Forall in_long [10200; -7; 42]) as Hv.
  { unfold in_long, LONG_MIN, LONG_MAX. repeat constructor; lia. }
  assert (length (uno_output [10200; -7; 42]%Z) <= 20)%nat as Hn.
  { vm_compute. lia. }
  exact (azimuth_is_last_sample st [10200; -7; 42] 20 pending_init Hv eq_refl Hn).
Defined.

(** ** Range of the positions and size of the responses *)

Lemma digits_value_nonneg s acc : 0 <= acc -> 0 <= digits_value acc s.
Proof.
  revert acc. induction s as [|c s IH]; intros acc Hacc; [done|].
  simpl. destruct (isdigit c) eqn:Hc; [|done].
  apply IH. unfold isdigit in Hc. lia.
Qed.

Lemma atol_in_long s : in_long (atol s).
Proof.
  unfold atol, in_long, LONG_MIN, LONG_MAX.
  destruct (skip_space s) as [|c s']; [lia|].
  pose proof (digits_value_nonneg s' 0 ltac:(lia)).
  pose proof (digits_value_nonneg (c :: s') 0 ltac:(lia)).
  destruct (c =? 45); [lia|]. destruct (c =? 43); lia.
Qed.

Lemma dec_digits_length fuel n acc k :
  (0 < k)%nat -> 0 <= n < 10 ^ Z.of_nat k ->
  (length (dec_digits fuel n acc) <= k + length acc)%nat.
Proof.
  revert n acc k. induction fuel as [|f IH]; intros n acc k Hk Hn; simpl; [lia|].
  destruct (Z.ltb_spec n 10) as [Hlt|Hge]; simpl; [lia|].
  destruct k as [|[|k]]; [lia | simpl in Hn; lia |].
  assert (0 <= n / 10 < 10 ^ Z.of_nat (S k)) as Hq.
  { split; [apply Z.div_pos; lia|].
    apply Z.div_lt_upper_bound; [lia|].
    rewrite (Nat2Z.inj_succ (S k)), Z.pow_succ_r in Hn by lia. lia. }
  specialize (IH (n / 10) ((48 + n mod 10) :: acc) (S k) ltac:(lia) Hq).
  simpl in IH. lia.
Qed.

Lemma length_fmt_long v : in_long v -> (length (fmt_long v) <= 11)%nat.
Proof.
  unfold in_long, LONG_MIN, LONG_MAX, fmt_long, fmt_unsigned. intros Hv.
  destruct (Z.ltb_spec v 0).
  - pose proof (dec_digits_length (S (Z.to_nat (Z.log2 (- v)))) (- v) [] 10
                  ltac:(lia) ltac:(simpl; lia)). simpl in *. lia.
  - pose proof (dec_digits_length (S (Z.to_nat (Z.log2 v))) v [] 10
                  ltac:(lia) ltac:(simpl; lia)). simpl in *. lia.
Qed.

Lemma positions_in_long env es :
  Forall encoder_in_range es ->
  in_long (Azimuth_pos (run env es)) /\ in_long (Altitude_pos (run env es)) /\
  in_long (AltitudeEncoder (run env es)).
Proof.
  induction es as [|e es IH] using rev_ind; intros Hes.
  - unfold in_long, LONG_MIN, LONG_MAX. simpl. lia.
  - apply Forall_app in Hes as [Hes He]. apply Forall_inv in He.
    destruct (IH Hes) as (Haz & Halt & Henc).
    rewrite run_snoc. destruct e; simpl in *; try done.
    rewrite Azimuth_pos_loop, Altitude_pos_loop. split_and!; try done.
    + cbv zeta. unfold update_azimuth.
      destruct (0 <? _); [apply atol_in_long | done].
    + by open_loop (run env es).
Qed.

(** X5: as long as the encoder counts are values of [int32_t], both stored
    positions stay in the range of [long] in every state the node
    reaches, whatever arrives on the serial link; the string that
    [sprintf] formats for [Q] and [G] then has at most 25 characters, so
    it fits [char response[30]] with its NUL, and [contentSize] is not
    changed by the conversion to [uint8_t]. *)
Theorem response_fits_its_buffer (env : wifi_env) (es : list event) :
  Forall encoder_in_range es ->
  let st := run env es in
  in_long (Azimuth_pos st) /\ in_long (Altitude_pos st) /\
  (length (Q_response (Azimuth_pos st) (Altitude_pos st)) <= 25)%nat /\
  Z.of_nat (length (Q_response (Azimuth_pos st) (Altitude_pos st))) mod 256
    = Z.of_nat (length (Q_response (Azimuth_pos st) (Altitude_pos st))).
Proof.
  intros Hes st. destruct (positions_in_long env es Hes) as (Haz & Halt & _).
  fold st in Haz, Halt.
  assert (length (Q_response (Azimuth_pos st) (Altitude_pos st)) <= 25)%nat as Hlen.
  { unfold Q_response. rewrite !length_app. simpl.
    pose proof (length_fmt_long _ Haz). pose proof (length_fmt_long _ Halt). lia. }
  split_and!; try done. apply Z.mod_small. lia.
Qed.

Lemma response_fits_its_buffer_witness :
  let st := run env_no_network
              [EvEncoder (-2147483648); EvSerial (Uno.loop (-2147483648));
               EvLoop; EvLoop; EvLoop; EvLoop; EvLoop; EvLoop; EvLoop;
               EvLoop; EvLoop; EvLoop; EvLoop; EvLoop; EvLoop] in
  Azimuth_pos st = -2147483648 /\ Altitude_pos st = -2147483648 /\
  (length (Q_response (Azimuth_pos st) (Altitude_pos st)) <= 25)%nat.
Proof.
  intros st.
  assert (Forall encoder_in_range
            [EvEncoder (-2147483648); EvSerial (Uno.loop (-2147483648));
             EvLoop; EvLoop; EvLoop; EvLoop; EvLoop; EvLoop; EvLoop;
             EvLoop; EvLoop; EvLoop; EvLoop; EvLoop; EvLoop]) as H.
  { repeat constructor; unfold in_long, LONG_MIN, LONG_MAX; lia. }
  destruct (response_fits_its_buffer env_no_network _ H) as (_ & _ & Hlen & _).
  split_and!; [reflexivity | reflexivity | exact Hlen].
Defined.

(** ** The dispatcher inside the run loop *)

(** In one iteration of [loop], a client that has sent a byte is served
    with the positions this very iteration has stored. *)
Lemma loop_serves env es i c k b r :
  slot (tcp (run env es)) i = Some c ->
  conns (tcp (run env es)) !! c = Some k ->
  rx k = b :: r ->
  let st' := loop (run env es) in
  conns (tcp st') !! c
    = Some (served (Azimuth_pos st') (Altitude_pos st') (to_char b) (pop_rx k)) /\
  slot (tcp st') i = (if to_char b =? 71 then None else Some c).
Proof.
  intros Hs Hk Hrx st'. subst st'. rewrite tcp_loop, Altitude_pos_loop.
  eapply attend_serves; [apply run_inv | done | done | done].
Qed.

(** X6: in every state the node reaches, a client that has sent [Q] is
    answered in the next iteration of [loop] with the two positions that
    this iteration has just stored (the azimuth after the serial update,
    the altitude read from the encoder), formatted as
    [<azimuth> TAB <altitude> TAB LF] and followed by CR LF; only the
    command byte is consumed, and the client keeps its spot and its
    connection. *)
Theorem query_reports_current_positions (env : wifi_env) (es : list event)
    (i c : nat) (k : conn) (r : list Z) :
  slot (tcp (run env es)) i = Some c ->
  conns (tcp (run env es)) !! c = Some k ->
  rx k = 81 :: r ->
  let st' := loop (run env es) in
  conns (tcp st') !! c =
    Some {| established := established k; rx := r;
            tx := tx k ++ println (Q_response (Azimuth_pos st') (Altitude_pos st'));
            stopped := stopped k |} /\
  slot (tcp st') i = Some c /\
  Altitude_pos st' = AltitudeEncoder (run env es).
Proof.
  intros Hs Hk Hrx st'.
  destruct (loop_serves env es i c k 81 r Hs Hk Hrx) as [H1 H2].
  fold st' in H1, H2. rewrite H1, H2. unfold pop_rx. rewrite Hrx.
  split_and!; try done. apply Altitude_pos_loop.
Qed.

Lemma query_reports_current_positions_witness :
  let es := [EvConnect; EvLoop; EvEncoder 512; EvSerial (Uno.loop (-30));
             EvLoop; EvLoop; EvLoop; EvLoop; EvData 0 [81]] in
  tx <$> conns (tcp (loop (run env_no_network es))) !! 0%nat
    = Some (println (Q_response (-30) 512)).
Proof.
  intros es.
  destruct (query_reports_current_positions env_no_network es 0 0
              {| established := true; rx := [81]; tx := []; stopped := false |} []
              eq_refl eq_refl eq_refl) as (H & _ & _).
  rewrite H. reflexivity.
Defined.

(** X7: a client that has sent [H] is answered with the two step totals,
    [10200-10200], followed by CR LF; the limit of 20 given to [snprintf]
    does not cut the string; only the command byte is consumed and the
    client keeps its spot and its connection. *)
Theorem resolution_query_response (env : wifi_env) (es : list event)
    (i c : nat) (k : conn) (r : list Z) :
  slot (tcp (run env es)) i = Some c ->
  conns (tcp (run env es)) !! c = Some k ->
  rx k = 72 :: r ->
  conns (tcp (loop (run env es))) !! c =
    Some {| established := established k; rx := r;
            tx := tx k ++ bytes "10200-10200" ++ [CR; LF];
            stopped := stopped k |} /\
  slot (tcp (loop (run env es))) i = Some c /\
  H_response = fmt_unsigned AZIMUTH_TOTAL_STEPS ++ [45]
                 ++ fmt_unsigned ALTITUDE_TOTAL_STEPS.
Proof.
  intros Hs Hk Hrx.
  destruct (loop_serves env es i c k 72 r Hs Hk Hrx) as [H1 H2].
  rewrite H1, H2. unfold pop_rx. rewrite Hrx. done.
Qed.

Lemma resolution_query_response_witness :
  let es := [EvConnect; EvLoop; EvData 0 [72; 81]] in
  conns (tcp (loop (run env_no_network es))) !! 0%nat =
    Some {| established := true; rx := [81];
            tx := bytes "10200-10200" ++ [CR; LF]; stopped := false |}.
Proof.
  intros es.
  exact (proj1 (resolution_query_response env_no_network es 0 0
           {| established := true; rx := [72; 81]; tx := []; stopped := false |} [81]
           eq_refl eq_refl eq_refl)).
Defined.

(** X8: a byte that is none of [Q], [H] and [G] is read and dropped:
    nothing is written to the client, only that one byte is consumed, and
    the client keeps its spot and its connection. *)
Theorem unknown_command_is_consumed (env : wifi_env) (es : list event)
    (i c : nat) (k : conn) (b : Z) (r : list Z) :
  slot (tcp (run env es)) i = Some c ->
  conns (tcp (run env es)) !! c = Some k ->
  rx k = b :: r ->
  to_char b <> 81 -> to_char b <> 72 -> to_char b <> 71 ->
  conns (tcp (loop (run env es))) !! c =
    Some {| established := established k; rx := r; tx := tx k;
            stopped := stopped k |} /\
  slot (tcp (loop (run env es))) i = Some c.
Proof.
  intros Hs Hk Hrx HQ HH HG.
  destruct (loop_serves env es i c k b r Hs Hk Hrx) as [H1 H2].
  rewrite H1, H2. unfold served, pop_rx. rewrite Hrx.
  destruct (Z.eqb_spec (to_char b) 81); [done|].
  destruct (Z.eqb_spec (to_char b) 72); [done|].
  destruct (Z.eqb_spec (to_char b) 71); done.
Qed.

Lemma unknown_command_is_consumed_witness :
  let es := [EvConnect; EvLoop; EvData 0 [113; 81]] in
  conns (tcp (loop (run env_no_network es))) !! 0%nat =
    Some {| established := true; rx := [81]; tx := []; stopped := false |}.
Proof.
  intros es.
  assert (to_char 113 <> 81) as H1 by (vm_compute; discriminate).
  assert (to_char 113 <> 72) as H2 by (vm_compute; discriminate).
  assert (to_char 113 <> 71) as H3 by (vm_compute; discriminate).
  exact (proj1 (unknown_command_is_consumed env_no_network es 0 0
           {| established := true; rx := [113; 81]; tx := []; stopped := false |}
           113 [81] eq_refl eq_refl eq_refl H1 H2 H3)).
Defined.

(** X9: for every pair of positions, a client that has sent [G] is sent
    the header, one byte holding the length of the formatted string, the
    blank line and the string followed by CR LF; whatever else it had sent
    is discarded, its connection is stopped, and its spot is emptied, so
    that the spot is free for the next pending connection. *)
Theorem get_request_closes_connection (env : wifi_env) (es : list event)
    (i c : nat) (k : conn) (r : list Z) :
  slot (tcp (run env es)) i = Some c ->
  conns (tcp (run env es)) !! c = Some k ->
  rx k = 71 :: r ->
  let st' := loop (run env es) in
  conns (tcp st') !! c =
    Some {| established := false; rx := [];
            tx := tx k ++ http_header
                    ++ [Z.of_nat (length (Q_response (Azimuth_pos st') (Altitude_pos st')))
                          mod 256]
                    ++ [CR; LF; CR; LF]
                    ++ println (Q_response (Azimuth_pos st') (Altitude_pos st'));
            stopped := true |} /\
  slot (tcp st') i = None /\
  spot_free (tcp st') i = true /\
  client_connected (tcp st') (Some c) = false.
Proof.
  intros Hs Hk Hrx st'.
  destruct (loop_serves env es i c k 71 r Hs Hk Hrx) as [H1 H2].
  fold st' in H1, H2. simpl in H1, H2.
  split_and!; try done.
  - unfold spot_free. by rewrite H2.
  - unfold client_connected, client_available. simpl. by rewrite H1.
Qed.

Lemma get_request_closes_connection_witness :
  let es := [EvConnect; EvLoop; EvEncoder 7; EvData 0 [71; 69; 84; 32; 47]] in
  slot (tcp (loop (run env_no_network es))) 0 = None /\
  (stopped <$> conns (tcp (loop (run env_no_network es))) !! 0%nat) = Some true.
Proof.
  intros es.
  destruct (get_request_closes_connection env_no_network es 0 0
              {| established := true; rx := [71; 69; 84; 32; 47]; tx := [];
                 stopped := false |} [69; 84; 32; 47]
              eq_refl eq_refl eq_refl) as (H1 & H2 & _).
  split; [exact H2 | by rewrite H1].
Defined.

(** ** What [attendTcpRequests] leaves alone *)

(** X10: each call of [attendTcpRequests] takes exactly the oldest pending
    connection off the server's queue, whether it finds a spot for it or
    rejects it; the others keep waiting, in order. *)
Theorem one_pending_connection_per_call (az alt : Z) (t : tcp_state) :
  unclaimed (attendTcpRequests az alt t) = tail (unclaimed t).
Proof.
  unfold attendTcpRequests.
  destruct (serve_scan_frame az alt MAX_SRV_CLIENTS 0 (accept_new_client t)) as [-> _].
  destruct (accept_cases t)
    as [[Hu ->]|[(c & q & i & Hu & _ & _ & _ & ->)|(c & q & Hu & _ & ->)]].
  - by rewrite Hu.
  - by rewrite (claim_spot_pending _ _ _ _ Hu), Hu.
  - by rewrite Hu.
Qed.

Lemma serve_scan_idle az alt n i0 t c k :
  conns t !! c = Some k -> rx k = [] ->
  conns (serve_scan az alt n i0 t) !! c = Some k /\
  (forall i, slot t i = Some c -> slot (serve_scan az alt n i0 t) i = Some c).
Proof.
  revert i0 t. induction n as [|n IH]; intros i0 t Hk Hrx; [done|]. simpl.
  assert (conns (serve_client az alt i0 t) !! c = Some k /\
          (forall i, slot t i = Some c -> slot (serve_client az alt i0 t) i = Some c))
    as [Hk' Hs'].
  { destruct (decide (slot t i0 = Some c)) as [Hs|Hs].
    - rewrite serve_client_idle; [done|]. intros c' k' Hc' Hk'. congruence.
    - destruct (serve_client_frame az alt i0 t) as (_ & _ & _ & Hother & _ & Hcn).
      split; [by rewrite Hcn|].
      intros i Hi. apply slot_lookup. rewrite Hother; [by apply slot_lookup|].
      congruence. }
  destruct (IH (S i0) _ Hk' Hrx) as [IH1 IH2]. split; [done|].
  intros i Hi. by apply IH2, Hs'.
Qed.

(** X11: a client whose connection is established and that has sent
    nothing is left exactly as it is by an iteration of [loop]: it keeps
    its spot, nothing is written to it, and it is not closed, whatever the
    other clients send and whether or not a connection is pending. *)
Theorem idle_client_is_untouched (env : wifi_env) (es : list event)
    (i c : nat) (k : conn) :
  slot (tcp (run env es)) i = Some c ->
  conns (tcp (run env es)) !! c = Some k ->
  rx k = [] -> established k = true ->
  conns (tcp (loop (run env es))) !! c = Some k /\
  slot (tcp (loop (run env es))) i = Some c.
Proof.
  intros Hs Hk Hrx Hest. rewrite tcp_loop. unfold attendTcpRequests.
  assert (client_connected (tcp (run env es)) (Some c) = true) as Hc.
  { unfold client_connected. simpl. by rewrite Hk, Hest. }
  destruct (accept_keeps_connected _ _ _ (run_inv env es) Hs Hc) as [Hs' Hk'].
  rewrite Hk in Hk'.
  destruct (serve_scan_idle (Azimuth_pos (loop (run env es)))
              (AltitudeEncoder (run env es)) MAX_SRV_CLIENTS 0 _ c k Hk' Hrx)
    as [H1 H2].
  split; [done | by apply H2].
Qed.

Lemma idle_client_is_untouched_witness :
  let es := [EvConnect; EvLoop; EvConnect; EvLoop; EvData 1 [71]; EvConnect] in
  conns (tcp (loop (run env_no_network es))) !! 0%nat = Some fresh_conn /\
  slot (tcp (loop (run env_no_network es))) 0 = Some 0%nat.
Proof.
  intros es.
  exact (idle_client_is_untouched env_no_network es 0 0 fresh_conn
           eq_refl eq_refl eq_refl eq_refl).
Defined.

(** X12: a connection that is held in no spot and is not the oldest
    pending one is not touched by [attendTcpRequests]: nothing is written
    to it, nothing is read from it, and it is not closed. *)
Theorem unheld_connection_is_untouched (az alt : Z) (t : tcp_state) (c : nat) :
  (forall i, slot t i <> Some c) ->
  head (unclaimed t) <> Some c ->
  conns (attendTcpRequests az alt t) !! c = conns t !! c.
Proof.
  intros Hfree Hhead. unfold attendTcpRequests.
  destruct (serve_scan_frame az alt MAX_SRV_CLIENTS 0 (accept_new_client t))
    as (_ & _ & _ & Hcn).
  assert (conns (accept_new_client t) !! c = conns t !! c /\
          forall i, slot (accept_new_client t) i <> Some c) as [Hc Hs].
  { destruct (accept_cases t)
      as [[Hu ->]|[(c0 & q & i0 & Hu & _ & _ & _ & ->)|(c0 & q & Hu & _ & ->)]].
    - done.
    - rewrite (claim_spot_pending _ _ _ _ Hu). rewrite Hu in Hhead. simpl in *.
      split; [apply conns_client_stop, Hfree|].
      intros i Hi. apply slot_lookup in Hi. simpl in Hi.
      apply list_lookup_insert_Some in Hi as [(_ & Heq & _)|(_ & Hi)].
      + congruence.
      + by apply slot_lookup, Hfree in Hi.
    - rewrite Hu in Hhead. simpl in Hhead. split; [|done].
      rewrite conns_client_stop; [done | congruence]. }
  rewrite Hcn; [done|]. intros j _. apply Hs.
Qed.

Lemma unheld_connection_is_untouched_witness :
  let t := tcp (run env_no_network
                  [EvConnect; EvLoop; EvData 0 [81]; EvConnect; EvConnect;
                   EvData 2 [81]]) in
  conns (attendTcpRequests 0 0 t) !! 2%nat
    = Some {| established := true; rx := [81]; tx := []; stopped := false |}.
Proof.
  intros t.
  assert (forall i, slot t i <> Some 2%nat) as H1.
  { intros [|[|[|i]]]; discriminate. }
  assert (head (unclaimed t) <> Some 2%nat) as H2 by discriminate.
  rewrite (unheld_connection_is_untouched 0 0 t 2 H1 H2). reflexivity.
Defined.

(** ** No handle to a stopped connection *)

Lemma stopped_served az alt ch k :
  ch <> 71 -> stopped (served az alt ch k) = stopped k.
Proof.
  intros Hch. unfold served.
  destruct (ch =? 81); [done|]. destruct (ch =? 72); [done|].
  by destruct (Z.eqb_spec ch 71).
Qed.

Lemma serve_client_open az alt i t :
  tcp_inv t -> handles_open t -> handles_open (serve_client az alt i t).
Proof.
  intros (Hlen & Hval & Huniq & Hnd & Hq) [Hslots Hqueue].
  destruct (serve_client_cases az alt i t)
    as [->|(c & k & b & r & Hs & Hk & Hrx & ->)]; [done|].
  apply slot_lookup in Hs. pose proof (lookup_lt_Some _ _ _ Hk) as Hlt.
  split; simpl.
  - intros j d Hj.
    assert (serverClients t !! j = Some (Some d) /\
            (d = c -> to_char b <> 71)) as [Hj' Hne].
    { destruct (Z.eqb_spec (to_char b) 71) as [HG|HG]; [|done].
      apply list_lookup_insert_Some in Hj as [(_ & [=] & _)|(Hij & Hj)].
      split; [done|]. intros ->. exfalso. apply Hij. by apply (Huniq i j c). }
    destruct (decide (d = c)) as [->|Hd].
    + rewrite list_lookup_insert_eq by done. eexists. split; [done|].
      rewrite stopped_served by auto. simpl.
      destruct (Hslots _ _ Hj') as (k0 & Hk0 & Hst). congruence.
    + rewrite list_lookup_insert_ne by done. by apply (Hslots j).
  - intros d Hd. destruct (Hval _ _ Hs) as [_ Hc].
    rewrite list_lookup_insert_ne by congruence. by apply Hqueue.
Qed.

Lemma serve_scan_open az alt n i0 t :
  tcp_inv t -> handles_open t -> handles_open (serve_scan az alt n i0 t).
Proof.
  revert i0 t. induction n as [|n IH]; intros i0 t Hinv Hop; [done|]. simpl.
  apply IH; [by apply serve_client_inv | by apply serve_client_open].
Qed.

Lemma accept_open t :
  tcp_inv t -> handles_open t -> handles_open (accept_new_client t).
Proof.
  intros (Hlen & Hval & Huniq & Hnd & Hq) [Hslots Hqueue].
  destruct (accept_cases t)
    as [[_ ->]|[(c & q & i & Hu & Hi & _ & _ & ->)|(c & q & Hu & _ & ->)]]; [done| |].
  - rewrite (claim_spot_pending _ _ _ _ Hu). rewrite Hu in *.
    apply NoDup_cons in Hnd as [Hcq _].
    assert (forall d, (d = c \/ d ∈ q \/
                       exists j, j <> i /\ serverClients t !! j = Some (Some d)) ->
              slot t i <> Some d) as Hstale.
    { intros d Hd Hsi. apply slot_lookup in Hsi.
      destruct (Hval _ _ Hsi) as [_ Hn]. apply not_elem_of_cons in Hn as [Hn1 Hn2].
      destruct Hd as [->|[Hd|(j & Hj & Hd)]]; [done | done |].
      apply Hj. by apply (Huniq j i d). }
    split; simpl.
    + intros j d Hj.
      apply list_lookup_insert_Some in Hj as [(-> & [= <-] & _)|(Hij & Hj)].
      * rewrite conns_client_stop by (apply Hstale; by left).
        apply Hqueue. by left.
      * rewrite conns_client_stop by (apply Hstale; right; right; eauto).
        by apply (Hslots j).
    + intros d Hd. rewrite conns_client_stop by (apply Hstale; right; by left).
      apply Hqueue. by right.
  - rewrite Hu in *. apply NoDup_cons in Hnd as [Hcq _]. split; simpl.
    + intros j d Hj. destruct (Hval _ _ Hj) as [_ Hn].
      apply not_elem_of_cons in Hn as [Hn _].
      rewrite list_lookup_alter_ne by done. by apply (Hslots j).
    + intros d Hd. rewrite list_lookup_alter_ne by congruence.
      apply Hqueue. by right.
Qed.

Lemma alter_keeps_open (f : conn -> conn) (l : list conn) (c d : nat) :
  (forall k, stopped (f k) = stopped k) ->
  (exists k, l !! d = Some k /\ stopped k = false) ->
  exists k, alter f c l !! d = Some k /\ stopped k = false.
Proof.
  intros Hf (k & Hk & Hst). destruct (decide (c = d)) as [->|Hne].
  - exists (f k). rewrite list_lookup_alter_eq, Hk. split; [done | by rewrite Hf].
  - exists k. by rewrite list_lookup_alter_ne.
Qed.

Lemma tcp_event_open e t :
  tcp_inv t -> handles_open t -> handles_open (tcp_event e t).
Proof.
  intros (Hlen & Hval & Huniq & Hnd & Hq) [Hslots Hqueue].
  destruct e; try done; split; simpl.
  - intros j d Hj. destruct (Hslots _ _ Hj) as (k & Hk & Hst).
    exists k. split; [by apply lookup_app_l_Some | done].
  - intros d Hd. apply elem_of_app in Hd as [Hd|Hd].
    + destruct (Hqueue _ Hd) as (k & Hk & Hst).
      exists k. split; [by apply lookup_app_l_Some | done].
    + apply list_elem_of_singleton in Hd as ->. exists fresh_conn.
      split; [|done]. rewrite lookup_app_r by lia. by rewrite Nat.sub_diag.
  - intros j d Hj. apply alter_keeps_open; [|by apply (Hslots j)].
    intros k. unfold peer_send. by destruct (established k).
  - intros d Hd. apply alter_keeps_open; [|by apply Hqueue].
    intros k. unfold peer_send. by destruct (established k).
  - intros j d Hj. apply alter_keeps_open; [done | by apply (Hslots j)].
  - intros d Hd. apply alter_keeps_open; [done | by apply Hqueue].
Qed.

(** X13: in every state the node reaches, no spot and no entry of the
    pending queue names a connection that the sketch has stopped: a stale
    handle is stopped only when its spot is overwritten, a rejected
    connection leaves the queue as it is stopped, and [G] empties the spot
    it stops. *)
Theorem no_handle_to_a_stopped_connection (env : wifi_env) (es : list event) :
  handles_open (tcp (run env es)).
Proof.
  induction es as [|e es IH] using rev_ind.
  - split; simpl.
    + intros [|[|[|i]]] c; done.
    + intros c Hc. by apply elem_of_nil in Hc.
  - rewrite run_snoc. pose proof (run_inv env es) as Hinv.
    destruct e; simpl; try done.
    + by apply (tcp_event_open EvConnect).
    + by apply (tcp_event_open (EvData c bs)).
    + by apply (tcp_event_open (EvPeerClose c)).
    + rewrite tcp_loop. unfold attendTcpRequests.
      apply serve_scan_open; [by apply accept_inv | by apply accept_open].
Qed.

(** ** Both outcomes of the bootstrap *)

(** X14: [setup] always ends in a determined mode, with exactly one join
    attempt and with the TCP server started last.  When the status after
    the delay is [WL_CONNECTED] its calls are exactly: serial port, delay,
    station mode, join, delay, print of the address the network gave,
    server start; none of them sets up or starts an access point.
    Otherwise it is the access point at 1.2.3.4, started with the
    configured name and password. *)
Theorem bootstrap_outcomes (env : wifi_env) :
  join_attempts (setup env) = 1%nat /\
  (exists tr, setup env = tr ++ [server_begin; server_setNoDelay true]) /\
  (status_after_begin env = WL_CONNECTED ->
     setup env =
       [Serial_begin 115200; delay 2000;
        WiFi_mode WIFI_STA;
        WiFi_begin External_WiFi_SSID External_WiFi_Password;
        delay 5000;
        Serial_println_ip (localIP env);
        server_begin; server_setNoDelay true] /\
     network_identity (setup env) = Some Joined /\
     Forall (fun c => is_access_point_call c = false) (setup env)) /\
  (status_after_begin env <> WL_CONNECTED ->
     network_identity (setup env)
       = Some (SelfHosted (IP 1 2 3 4) (IP 1 2 3 1) (IP 255 255 255 0)) /\
     WiFi_softAP WiFi_Access_Point_Name WiFi_Access_Point_Passw ∈ setup env /\
     Exists (fun c => is_access_point_call c = true) (setup env)).
Proof.
  unfold setup. split_and!.
  - by destruct (status_after_begin env).
  - eexists. rewrite app_assoc. reflexivity.
  - intros ->. simpl. split_and!; [done | done | repeat constructor].
  - intros Hst.
    assert (wl_status_eqb (status_after_begin env) WL_CONNECTED = false) as ->.
    { by destruct (status_after_begin env). }
    simpl. split_and!; [done | |].
    + apply list_elem_of_In. simpl. auto 20.
    + do 6 apply Exists_cons_tl. by apply Exists_cons_hd.
Qed.

Lemma bootstrap_outcomes_witness :
  network_identity
    (setup {| status_after_begin := WL_CONNECTED;
              localIP := IP 192 168 1 77; softAPIP := IP 0 0 0 0 |}) = Some Joined /\
  network_identity (setup env_no_network)
    = Some (SelfHosted (IP 1 2 3 4) (IP 1 2 3 1) (IP 255 255 255 0)).
Proof.
  split.
  - apply (proj1 (proj2 (proj2 (bootstrap_outcomes
             {| status_after_begin := WL_CONNECTED;
                localIP := IP 192 168 1 77; softAPIP := IP 0 0 0 0 |})))).
    reflexivity.
  - apply (proj2 (proj2 (proj2 (bootstrap_outcomes env_no_network)))).
    discriminate.
Defined.

(** ** Accepting and serving in one call *)

(** X15: a pending connection that has already sent a byte is placed in
    the first free spot and served by the same call of
    [attendTcpRequests]: its first command is answered without waiting for
    another iteration. *)
Theorem new_client_is_served_at_once (az alt : Z) (t : tcp_state)
    (i c : nat) (q : list nat) (k : conn) (b : Z) (r : list Z) :
  tcp_inv t -> unclaimed t = c :: q ->
  (i < MAX_SRV_CLIENTS)%nat -> spot_free t i = true ->
  (forall j, (j < i)%nat -> spot_free t j = false) ->
  conns t !! c = Some k -> rx k = b :: r ->
  conns (attendTcpRequests az alt t) !! c
    = Some (served az alt (to_char b) (pop_rx k)) /\
  slot (attendTcpRequests az alt t) i = (if to_char b =? 71 then None else Some c).
Proof.
  intros Hinv Hu Hi Hfree Hbefore Hk Hrx.
  pose proof (accept_inv _ Hinv) as Hinv'.
  unfold attendTcpRequests.
  rewrite (accept_first_free _ _ _ _ Hu Hi Hfree Hbefore) in *.
  rewrite (claim_spot_pending _ _ _ _ Hu) in *.
  destruct Hinv as (Hlen & Hval & _). destruct Hinv' as (_ & _ & Huniq' & _).
  assert (slot {| serverClients := <[i:=Some c]> (serverClients t);
                  conns := conns (client_stop (slot t i) t);
                  unclaimed := q |} i = Some c) as Hs.
  { apply slot_lookup. simpl. apply list_lookup_insert_eq. by rewrite Hlen. }
  eapply serve_scan_served; eauto.
  - unfold MAX_SRV_CLIENTS in *. lia.
  - intros j Hj Hsj. apply Hj. apply (Huniq' j i c); by apply slot_lookup.
  - simpl. rewrite conns_client_stop; [done|]. intros Hsi.
    apply slot_lookup in Hsi. destruct (Hval _ _ Hsi) as [_ Hn].
    apply Hn. rewrite Hu. by left.
Qed.

Lemma new_client_is_served_at_once_witness :
  let t := tcp (run env_no_network [EvConnect; EvLoop; EvConnect; EvData 1 [72]]) in
  conns (attendTcpRequests 0 0 t) !! 1%nat =
    Some {| established := true; rx := []; tx := println H_response;
            stopped := false |} /\
  slot (attendTcpRequests 0 0 t) 1 = Some 1%nat.
Proof.
  intros t.
  assert (forall j, (j < 1)%nat -> spot_free t j = false) as Hb.
  { intros [|j] Hj; [reflexivity | lia]. }
  assert (1 < MAX_SRV_CLIENTS)%nat as H1 by (unfold MAX_SRV_CLIENTS; lia).
  exact (new_client_is_served_at_once 0 0 t 1 1 []
           {| established := true; rx := [72]; tx := []; stopped := false |} 72 []
           (run_inv env_no_network _) eq_refl H1 eq_refl Hb eq_refl eq_refl).
Defined.

(** ** The network cannot reach the positions *)

(** X16: the parser state, the receive queue and both stored positions
    depend only on the serial bytes, the encoder movements and the number
    of iterations of [loop]: connections, the bytes clients send and their
    disconnections, as well as the outcome of the WiFi bootstrap, can be
    left out of a run without changing any of them. *)
Theorem positions_ignore_the_network (env env' : wifi_env) (es : list event) :
  let st := run env es in
  let st' := run env' (filter position_event es) in
  line st = line st' /\ serial_rx st = serial_rx st' /\
  AltitudeEncoder st = AltitudeEncoder st' /\
  Azimuth_pos st = Azimuth_pos st' /\ Altitude_pos st = Altitude_pos st'.
Proof.
  induction es as [|e es IH] using rev_ind; [done|].
  simpl in *. destruct IH as (Hl & Hq & He & Haz & Halt).
  rewrite filter_app, filter_cons, filter_nil.
  destruct (decide (position_event e)) as [Hp|Hp].
  - rewrite !run_snoc. destruct e; simpl in *; try done.
    + by rewrite Hq.
    + unfold loop. rewrite <- Hl, <- Hq, <- He, <- Haz.
      destruct (Serial_read (serial_rx (run env es))) as [c q'].
      by destruct (readFromSerial (line (run env es)) c) as [n ls].
  - rewrite app_nil_r, run_snoc. destruct e; simpl in *; done.
Qed.
